(** * GenR8: the password composer and the strength evaluator of generate.py

    A shallow embedding of [generate_password], [generate_from_template],
    [evaluate_password_strength] and [is_valid_template], of the display
    functions [display_password], [animate_password] and [matrix_effect]
    and of the generation part of the command line, with the parts of
    Python's [random] and [float] they rely on, followed by the properties
    the specification states about them and by further properties read off
    the code. *)

From Stdlib Require Import ZArith NArith List Bool Ascii String Lia Permutation.
From Stdlib Require Import SpecFloat DecimalString.
Import ListNotations.

Local Open Scope Z_scope.

(** ** Python values *)

(** A Python [str] is a sequence of Unicode code points. *)
Definition char := N.
Definition str := list char.

(** [py "..."] is the Python literal with the same (ASCII) text. *)
Definition py (s : string) : str := map N_of_ascii (list_ascii_of_string s).

Definition char_eqb (a b : char) : bool := N.eqb a b.

(** [c in s] for a one-character [c]. *)
Definition char_in (c : char) (s : str) : bool := existsb (char_eqb c) s.

(** [s.count(c)] for a one-character [c]. *)
Definition str_count (c : char) (s : str) : nat :=
  List.length (filter (char_eqb c) s).

(** [len(s)] is a Python int. *)
Definition len {A} (s : list A) : Z := Z.of_nat (List.length s).

(** [sum] of a list of [bool]: [True] counts 1. *)
Definition sum_bools (bs : list bool) : Z :=
  fold_left (fun acc (b : bool) => acc + (if b then 1 else 0)) bs 0.

(** The exceptions the modelled operations can raise. *)
Inductive exn : Type :=
| IndexError
| ValueError
| OverflowError
| ZeroDivisionError
| UnicodeEncodeError.

Inductive result (A : Type) : Type :=
| Ok (a : A)
| Raise (e : exn).
Arguments Ok {A} a.
Arguments Raise {A} e.

Definition rbind {A B} (r : result A) (k : A -> result B) : result B :=
  match r with
  | Ok a => k a
  | Raise e => Raise e
  end.

(** ** The alphabets of the [string] module and of the composer *)

Definition ascii_uppercase : str := py "ABCDEFGHIJKLMNOPQRSTUVWXYZ".
Definition ascii_lowercase : str := py "abcdefghijklmnopqrstuvwxyz".
Definition digits : str := py "0123456789".
Definition allowed_specials : str := py "!@#$%&_-?".

(** The literal of line 109, the evaluator's notion of a special character. *)
Definition evaluator_specials : str := py "!@#$%^&*()_+-=[]{}|;:,.<>?/".

(** ** Python floats: IEEE 754 binary64, round to nearest even *)

Module PyFloat.

Definition prec : Z := 53.
Definition emax : Z := 1024.

Definition float := spec_float.

(** [float(n)], correctly rounded. *)
Definition of_int (n : Z) : float := binary_normalize prec emax n 0 false.

Definition mul (x y : float) : float := SFmul prec emax x y.
Definition ltb (x y : float) : bool := SFltb x y.

(** [a / b] on two ints: true division, [ZeroDivisionError] when [b] is 0.
    The quotient of the two converted operands is the correctly rounded
    quotient as long as both are below 2^53, which a length always is. *)
Definition truediv (a b : Z) : result float :=
  if b =? 0 then Raise ZeroDivisionError
  else Ok (SFdiv prec emax (of_int a) (of_int b)).

(** [int(x)]: truncation toward zero. *)
Definition to_int (x : float) : result Z :=
  match x with
  | S754_zero _ => Ok 0
  | S754_infinity _ => Raise OverflowError
  | S754_nan => Raise ValueError
  | S754_finite s m e =>
      let mag := if 0 <=? e then Z.pos m * 2 ^ e else Z.pos m / 2 ^ (- e) in
      Ok (if s then - mag else mag)
  end.

End PyFloat.

(** ** The strength evaluator *)

Section Evaluator.

(** [str.isupper], [str.islower] and [str.isdigit] on one character: the
    ASCII ranges below 128, the Unicode character database above. *)
Variables unicode_isupper unicode_islower unicode_isdigit : char -> bool.

Definition in_range (lo hi c : N) : bool := (N.leb lo c && N.leb c hi)%bool.

Definition isupper (c : char) : bool :=
  if N.ltb c 128 then in_range 65 90 c else unicode_isupper c.
Definition islower (c : char) : bool :=
  if N.ltb c 128 then in_range 97 122 c else unicode_islower c.
Definition isdigit (c : char) : bool :=
  if N.ltb c 128 then in_range 48 57 c else unicode_isdigit c.

(** [c in "!@#$%^&*()_+-=[]{}|;:,.<>?/"] *)
Definition is_special (c : char) : bool := char_in c evaluator_specials.

(** [len(set(password))] *)
Definition unique_count (password : str) : Z := len (nodup N.eq_dec password).

(** Lines 95-103: the points and the message for the length. *)
Definition length_score (length : Z) : Z * string :=
  if 16 <=? length then (40, "Good length"%string)
  else if 12 <=? length then (30, "Acceptable length"%string)
  else (15, "Too short"%string).

(** Lines 106-112. *)
Definition char_types (password : str) : Z :=
  sum_bools [existsb isupper password; existsb islower password;
             existsb isdigit password; existsb is_special password].

(** Lines 114-121. *)
Definition class_feedback (password : str) : list string :=
  (if negb (existsb isupper password) then ["Add uppercase letters"%string] else [])
  ++ (if negb (existsb islower password) then ["Add lowercase letters"%string] else [])
  ++ (if negb (existsb isdigit password) then ["Add numbers"%string] else [])
  ++ (if negb (existsb is_special password) then ["Add special characters"%string] else []).

(** Line 125: [min(20, int(unique_chars / length * 20))]. *)
Definition diversity_score (unique_chars length : Z) : result Z :=
  rbind (PyFloat.truediv unique_chars length) (fun q =>
  rbind (PyFloat.to_int (PyFloat.mul q (PyFloat.of_int 20))) (fun d =>
  Ok (Z.min 20 d))).

(** Line 128: [unique_chars < length / 2]. *)
Definition lacks_variety (unique_chars length : Z) : result bool :=
  rbind (PyFloat.truediv length 2) (fun h =>
  Ok (PyFloat.ltb (PyFloat.of_int unique_chars) h)).

(** Lines 132-141. *)
Definition strength_of (score : Z) : string :=
  if 90 <=? score then "Very Strong"
  else if 70 <=? score then "Strong"
  else if 50 <=? score then "Moderate"
  else if 30 <=? score then "Weak"
  else "Very Weak".

Definition evaluate_password_strength (password : str)
  : result (Z * string * list string) :=
  let score := 0 in
  let feedback := [] in
  let length := len password in
  let score := score + fst (length_score length) in
  let feedback := feedback ++ [snd (length_score length)] in
  let score := score + char_types password * 10 in
  let feedback := feedback ++ class_feedback password in
  let unique_chars := unique_count password in
  rbind (diversity_score unique_chars length) (fun diversity =>
  let score := score + diversity in
  rbind (lacks_variety unique_chars length) (fun few =>
  let feedback :=
    if few then feedback ++ ["Add more variety of characters"%string]
    else feedback in
  Ok (score, strength_of score, feedback))).

End Evaluator.

(** ** The template check *)

Definition is_valid_template (template : str) : bool :=
  if len template <? 12 then false
  else
    let has_upper := char_in (N_of_ascii "U") template in
    let has_lower := char_in (N_of_ascii "L") template in
    let has_digit := char_in (N_of_ascii "D") template in
    let has_special := char_in (N_of_ascii "S") template in
    let x_count := Z.of_nat (str_count (N_of_ascii "X") template) in
    let required_count :=
      4 - sum_bools [has_upper; has_lower; has_digit; has_special] in
    required_count <=? x_count.

(** ** The random source *)

(** The generator behind the [random] module is process-wide state.  It is
    modelled as a tape of raw draws and a cursor: every sequence of results
    the generator can produce is the reading of some tape, so a property
    proved for every tape holds for every run. *)
Record Random : Type := mkRandom { tape : nat -> nat; cursor : nat }.

(** Computations that read the random source and may raise. *)
Definition M (A : Type) : Type := Random -> result (A * Random).

Definition ret {A} (a : A) : M A := fun g => Ok (a, g).

Definition bind {A B} (m : M A) (k : A -> M B) : M B :=
  fun g =>
    match m g with
    | Ok (a, g') => k a g'
    | Raise e => Raise e
    end.

Definition raise {A} (e : exn) : M A := fun _ => Raise e.

Notation "x <- m ;; k" := (bind m (fun x => k))
  (at level 61, m at next level, right associativity).

(** One draw of an index below [n]: what [_randbelow(n)] returns, and what
    [floor(random() * n)] is ([random()] lies in [0, 1), and the rounded
    product stays below [n] for every [n] below 2^53).  Both give 0 for
    [n = 0]. *)
Definition draw (n : nat) : M nat :=
  fun g =>
    Ok (if Nat.eqb n 0 then O else Nat.modulo (tape g (cursor g)) n,
        mkRandom (tape g) (S (cursor g))).

(** [s[i]] and [s[i] = a] for [0 <= i]; out of range raises [IndexError]. *)
Definition getitem {A} (s : list A) (i : nat) : M A :=
  match nth_error s i with
  | Some a => ret a
  | None => raise IndexError
  end.

Fixpoint update {A} (i : nat) (a : A) (s : list A) : list A :=
  match s, i with
  | [], _ => []
  | _ :: s', O => a :: s'
  | b :: s', S i' => b :: update i' a s'
  end.

Definition setitem {A} (s : list A) (i : nat) (a : A) : M (list A) :=
  if Nat.ltb i (List.length s) then ret (update i a s) else raise IndexError.

(** [random.choice(seq)] *)
Definition choice {A} (seq : list A) : M A :=
  if Nat.eqb (List.length seq) 0 then raise IndexError
  else i <- draw (List.length seq) ;; getitem seq i.

(** [random.choices(population, k=k)]:
    [[population[floor(random() * n)] for i in repeat(None, k)]]. *)
Fixpoint choices_n {A} (population : list A) (k : nat) : M (list A) :=
  match k with
  | O => ret []
  | S k' =>
      i <- draw (List.length population) ;;
      c <- getitem population i ;;
      cs <- choices_n population k' ;;
      ret (c :: cs)
  end.

(** [sys.maxsize]: the largest [Py_ssize_t] of a 64-bit CPython. *)
Definition maxsize : Z := 2 ^ 63 - 1.

(** Whether an int converts to a [Py_ssize_t]. *)
Definition fits_ssize_t (k : Z) : bool :=
  (- maxsize - 1 <=? k) && (k <=? maxsize).

(** [repeat(None, k)] takes [k] as a [Py_ssize_t]: it raises
    [OverflowError], before anything is drawn, when [k] does not fit; a
    negative [k] repeats nothing.  Memory is not modelled: a [k] that fits
    gives its [k] characters, however many. *)
Definition choices {A} (population : list A) (k : Z) : M (list A) :=
  if fits_ssize_t k then choices_n population (Z.to_nat k)
  else raise OverflowError.

(** [x[i], x[j] = x[j], x[i]] *)
Definition swap {A} (x : list A) (i j : nat) : M (list A) :=
  xj <- getitem x j ;;
  xi <- getitem x i ;;
  x <- setitem x i xj ;;
  setitem x j xi.

(** [random.shuffle(x)]:
    [for i in reversed(range(1, len(x))): j = randbelow(i + 1); swap]. *)
Fixpoint shuffle_from {A} (i : nat) (x : list A) : M (list A) :=
  match i with
  | O => ret x
  | S i' =>
      j <- draw (S i) ;;
      x <- swap x i j ;;
      shuffle_from i' x
  end.

Definition shuffle {A} (x : list A) : M (list A) :=
  shuffle_from (List.length x - 1) x.

(** ** The composer *)

(** [if b: password.extend(m)] *)
Definition extend_if (b : bool) (password : str) (m : M str) : M str :=
  if b then cs <- m ;; ret (password ++ cs) else ret password.

Definition is_empty {A} (s : list A) : bool :=
  match s with [] => true | _ => false end.

(** Lines 19-33: the pool the filler is drawn from. *)
Definition character_pool
  (use_uppercase use_lowercase use_numbers use_special : bool) : str :=
  let character_pool : str := [] in
  let character_pool :=
    if use_uppercase then character_pool ++ ascii_uppercase else character_pool in
  let character_pool :=
    if use_lowercase then character_pool ++ ascii_lowercase else character_pool in
  let character_pool :=
    if use_numbers then character_pool ++ digits else character_pool in
  let character_pool :=
    if use_special then character_pool ++ allowed_specials else character_pool in
  if is_empty character_pool then ascii_lowercase else character_pool.

(** Lines 36-44: the characters reserved for the enabled classes. *)
Definition reserved_characters
  (use_uppercase use_lowercase use_numbers use_special : bool) : M str :=
  let password : str := [] in
  password <- extend_if use_special password (choices allowed_specials 2) ;;
  password <- extend_if use_uppercase password (choices ascii_uppercase 4) ;;
  password <- extend_if use_lowercase password (choices ascii_lowercase 4) ;;
  password <- extend_if use_numbers password (choices digits 2) ;;
  ret password.

Definition generate_password
  (length : Z) (use_uppercase use_lowercase use_numbers use_special : bool)
  : M str :=
  let length := if length <? 12 then 12 else length in
  let character_pool :=
    character_pool use_uppercase use_lowercase use_numbers use_special in
  password <-
    reserved_characters use_uppercase use_lowercase use_numbers use_special ;;
  let remaining_length := length - len password in
  password <- extend_if (0 <? remaining_length) password
                (choices character_pool remaining_length) ;;
  password <- shuffle password ;;
  ret password.

(** The dictionary of lines 68-74, in insertion order. *)
Definition pattern_map : list (char * str) :=
  [ (N_of_ascii "U", ascii_uppercase);
    (N_of_ascii "L", ascii_lowercase);
    (N_of_ascii "D", digits);
    (N_of_ascii "S", allowed_specials);
    (N_of_ascii "X",
     ascii_uppercase ++ ascii_lowercase ++ digits ++ allowed_specials) ].

Fixpoint dict_get {V} (k : char) (d : list (char * V)) : option V :=
  match d with
  | [] => None
  | (k', v) :: d' => if char_eqb k k' then Some v else dict_get k d'
  end.

(** The loop of lines 76-81, [result] being the list built so far. *)
Fixpoint template_loop (template : str) (result : str) : M str :=
  match template with
  | [] => ret result
  | char :: rest =>
      c <- match dict_get char pattern_map with
           | Some alphabet => choice alphabet
           | None => ret char
           end ;;
      template_loop rest (result ++ [c])
  end.

Definition generate_from_template (template : str) : M str :=
  template_loop template [].

(** ** The terminal, the clock and the clipboard *)

(** The constants of [colorama] the program prints. *)
Inductive colour : Type := CYAN | GREEN | MAGENTA | RED | WHITE | YELLOW.
Inductive style : Type := BRIGHT | NORMAL.

(** A printed string is a concatenation of [colorama] constants and text. *)
Inductive piece : Type :=
| Fore (c : colour)
| Style (s : style)
| Text (s : str).

Definition text := list piece.

(** What the program does to the outside, in order. *)
Inductive event : Type :=
| Print (t : text) (end_ : str)
| Sleep (milliseconds : Z)
| ClipboardCopy (s : str).

Definition newline : str := [10%N].
Definition carriage_return : str := [13%N].

(** [str(n)] for an int. *)
Definition str_of_int (n : Z) : str := py (NilZero.string_of_int (Z.to_int n)).

(** Computations that also print, sleep and copy: the events so far are
    kept when an exception is raised. *)
Definition Eff (A : Type) : Type := Random -> list event * result (A * Random).

Definition eret {A} (a : A) : Eff A := fun g => ([], Ok (a, g)).

Definition ebind {A B} (m : Eff A) (k : A -> Eff B) : Eff B :=
  fun g =>
    match m g with
    | (log, Ok (a, g')) => let (log', r) := k a g' in (log ++ log', r)
    | (log, Raise e) => (log, Raise e)
    end.

Definition emit (e : event) : Eff unit := fun g => ([e], Ok (tt, g)).

Definition lift {A} (m : M A) : Eff A := fun g => ([], m g).

Definition lift_result {A} (r : result A) : Eff A :=
  fun g => ([], rbind r (fun a => Ok (a, g))).

Notation "x <-- m ;; k" := (ebind m (fun x => k))
  (at level 61, m at next level, right associativity).
Notation "m ;;; k" := (ebind m (fun _ => k))
  (at level 61, right associativity).

Definition eraise {A} (e : exn) : Eff A := fun _ => ([], Raise e).

(** [try: m except Exception: handler], for a body [m] that does not read
    the random source: the handler starts from the source as it was. *)
Definition ecatch (m handler : Eff unit) : Eff unit :=
  fun g =>
    match m g with
    | (log, Raise _) => let (log', r) := handler g in (log ++ log', r)
    | done => done
    end.

(** [range(n)] for a length [n] *)
Definition range (n : nat) : list nat := seq 0 n.

Section Terminal.

(** Whether the encoding of [sys.stdout] has the non-ASCII character [c].
    The stream is taken to be open, and its encoding to have the ASCII
    characters, as UTF-8, Latin-1 and the Windows code pages do; UTF-8 has
    every character but the surrogates. *)
Variable encodes_non_ascii : char -> bool.

Definition stdout_encodes (c : char) : bool :=
  if N.ltb c 128 then true else encodes_non_ascii c.

Definition encodable (s : str) : bool := forallb stdout_encodes s.

(** The [colorama] constants are ASCII escape sequences. *)
Definition piece_encodable (p : piece) : bool :=
  match p with
  | Text s => encodable s
  | _ => true
  end.

Definition text_encodable (t : text) : bool := forallb piece_encodable t.

(** [print(t, end=e)] writes [t], then [e]; a write raises
    [UnicodeEncodeError] when the stream cannot encode its string, and is
    then left out of the events. *)
Definition print_end (t : text) (end_ : str) : Eff unit :=
  if text_encodable t then
    if encodable end_ then emit (Print t end_)
    else emit (Print t []) ;;; eraise UnicodeEncodeError
  else eraise UnicodeEncodeError.

(** [print(t)] *)
Definition print (t : text) : Eff unit := print_end t newline.

(** ** The animated reveal *)

(** The loop of lines 180-183, [scrambled] being the list of characters
    shown. *)
Fixpoint animate_loop (password : str) (indices : list nat) (scrambled : str)
  : Eff str :=
  match indices with
  | [] => eret scrambled
  | i :: rest =>
      c <-- lift (getitem password i) ;;
      scrambled <-- lift (setitem scrambled i c) ;;
      print_end [Fore MAGENTA; Style BRIGHT; Text scrambled] carriage_return ;;;
      emit (Sleep 100) ;;;
      animate_loop password rest scrambled
  end.

Definition animate_password (password : str) : Eff unit :=
  print [Fore GREEN; Style BRIGHT; Text (py "Generated Password:")] ;;;
  let scrambled : str := map (fun _ => N_of_ascii "*") password in
  print_end [Fore CYAN; Text scrambled] carriage_return ;;;
  emit (Sleep 500) ;;;
  scrambled <-- animate_loop password (range (List.length password)) scrambled ;;
  print [Fore MAGENTA; Style BRIGHT;
         Text (password ++ repeat (N_of_ascii " ") 10)].

(** ** Displaying a password *)

Section Display.

Variables unicode_isupper unicode_islower unicode_isdigit : char -> bool.

(** [pyperclip.copy]: whether it succeeds depends on the desktop. *)
Variable pyperclip_copy : str -> result unit.

(** Line 155 *)
Definition strength_color (score : Z) : colour :=
  if 70 <=? score then GREEN else if 50 <=? score then YELLOW else RED.

(** Lines 160-161 *)
Fixpoint print_feedback (feedback : list string) : Eff unit :=
  match feedback with
  | [] => eret tt
  | item :: rest =>
      print [Fore YELLOW; Text (py " " ++ [8226%N] ++ py " " ++ py item)] ;;;
      print_feedback rest
  end.

Definition display_password
  (password : str) (show_strength copy_to_clipboard animate : bool)
  : Eff unit :=
  (if animate then animate_password password
   else
     print [Fore GREEN; Style BRIGHT; Text (py "Generated Password:")] ;;;
     print [Fore MAGENTA; Style BRIGHT; Text password]) ;;;
  (if show_strength then
     evaluation <-- lift_result
       (evaluate_password_strength
          unicode_isupper unicode_islower unicode_isdigit password) ;;
     let '(score, strength, feedback) := evaluation in
     let strength_color := strength_color score in
     print [Fore strength_color;
            Text (py "Strength: " ++ py strength ++ py " ("
                  ++ str_of_int score ++ py "/100)")] ;;;
     (if is_empty feedback then eret tt
      else
        print [Fore YELLOW; Text (py "Feedback:")] ;;;
        print_feedback feedback)
   else eret tt) ;;;
  (if copy_to_clipboard then
     ecatch
       (lift_result (pyperclip_copy password) ;;;
        emit (ClipboardCopy password) ;;;
        print [Fore YELLOW;
               Text ([10003%N] ++ py " Password copied to clipboard! ");
               Fore GREEN; Text (py "[Ready to paste]")])
       (print [Fore YELLOW;
               Text (py "! Could not copy password to clipboard")])
   else eret tt).

End Display.

(** ** The matrix effect *)

(** [random.random()]: a multiple of 2^-53 in [0, 1); the value returned
    here is its numerator. *)
Definition random_random : M Z :=
  fun g =>
    Ok (Z.of_nat (tape g (cursor g)) mod 2 ^ 53,
        mkRandom (tape g) (S (cursor g))).

(** [x > 0.8] for [x = k * 2^-53]: the float [0.8] is
    [7205759403792794 * 2^-53]. *)
Definition above_0_8 (k : Z) : bool := 7205759403792794 <? k.

(** The position a Python index denotes in a sequence of length [n]: a
    negative index counts from the end. *)
Definition position (n : nat) (i : Z) : option nat :=
  let i := if i <? 0 then i + Z.of_nat n else i in
  if (0 <=? i) && (i <? Z.of_nat n) then Some (Z.to_nat i) else None.

Definition getitem_int {A} (s : list A) (i : Z) : M A :=
  match position (List.length s) i with
  | Some k => getitem s k
  | None => raise IndexError
  end.

Definition setitem_int {A} (s : list A) (i : Z) (a : A) : M (list A) :=
  match position (List.length s) i with
  | Some k => setitem s k a
  | None => raise IndexError
  end.

(** A cell of the matrix is a printed string. *)
Definition cell := text.

(** [''.join(line)] *)
Definition join (line : list cell) : text := List.concat line.

(** [matrix[i][j] = v]: the row object is updated in place. *)
Definition set_cell (matrix : list (list cell)) (i j : Z) (v : cell)
  : M (list (list cell)) :=
  row <- getitem_int matrix i ;;
  row <- setitem_int row j v ;;
  setitem_int matrix i row.

(** [for line in matrix: print(prefix + ''.join(line))] *)
Fixpoint print_matrix (prefix : text) (matrix : list (list cell)) : Eff unit :=
  match matrix with
  | [] => eret tt
  | line :: rest => print (prefix ++ join line) ;;; print_matrix prefix rest
  end.

(** [print(f"\033[{lines}A", end='')] *)
Definition cursor_up (lines : Z) : Eff unit :=
  print_end [Text ([27%N] ++ py "[" ++ str_of_int lines ++ py "A")] [].

Definition noise_alphabet : str :=
  (ascii_lowercase ++ ascii_uppercase) ++ digits ++ py "!@#$%^&*".

(** Lines 200-202, for the row [i] and the columns [js] left. *)
Fixpoint noise_columns (i : nat) (js : list nat) (matrix : list (list cell))
  : Eff (list (list cell)) :=
  match js with
  | [] => eret matrix
  | j :: rest =>
      x <-- lift random_random ;;
      matrix <--
        (if above_0_8 x then
           c <-- lift (choice noise_alphabet) ;;
           lift (set_cell matrix (Z.of_nat i) (Z.of_nat j) [Text [c]])
         else eret matrix) ;;
      noise_columns i rest matrix
  end.

(** Lines 199-202, for the [rows] left. *)
Fixpoint noise_rows (rows : list nat) (width : Z) (matrix : list (list cell))
  : Eff (list (list cell)) :=
  match rows with
  | [] => eret matrix
  | i :: rest =>
      matrix <-- noise_columns i (range (Z.to_nat width)) matrix ;;
      noise_rows rest width matrix
  end.

(** Lines 198-209, for the rounds left. *)
Fixpoint noise_rounds (rounds : list nat) (lines width : Z)
  (matrix : list (list cell)) : Eff (list (list cell)) :=
  match rounds with
  | [] => eret matrix
  | _ :: rest =>
      matrix <-- noise_rows (range (Z.to_nat lines)) width matrix ;;
      print_matrix [Fore GREEN] matrix ;;;
      emit (Sleep 100) ;;;
      cursor_up lines ;;;
      noise_rounds rest lines width matrix
  end.

(** Lines 216-225, for the flashes [js] left of the character [i]. *)
Fixpoint flash (password : str) (lines middle_row start_col : Z) (i : nat)
  (js : list nat) (matrix : list (list cell)) : Eff (list (list cell)) :=
  match js with
  | [] => eret matrix
  | _ :: rest =>
      c <-- lift (getitem password i) ;;
      matrix <-- lift (set_cell matrix middle_row (start_col + Z.of_nat i)
                         [Fore WHITE; Style BRIGHT; Text [c];
                          Fore GREEN; Style NORMAL]) ;;
      print_matrix [] matrix ;;;
      emit (Sleep 50) ;;;
      cursor_up lines ;;;
      flash password lines middle_row start_col i rest matrix
  end.

(** Lines 215-225, for the [indices] of the characters left. *)
Fixpoint reveal (password : str) (lines middle_row start_col : Z)
  (indices : list nat) (matrix : list (list cell)) : Eff (list (list cell)) :=
  match indices with
  | [] => eret matrix
  | i :: rest =>
      matrix <-- flash password lines middle_row start_col i (range 3) matrix ;;
      reveal password lines middle_row start_col rest matrix
  end.

Definition matrix_effect (password : str) : Eff unit :=
  print [Fore GREEN; Style BRIGHT;
         Text (py "Generating secure password..." ++ newline)] ;;;
  let lines := 5 in
  let width := Z.max (len password + 10) 30 in
  let matrix : list (list cell) :=
    map (fun _ => map (fun _ => [Text (py "  ")]) (range (Z.to_nat width)))
        (range (Z.to_nat lines)) in
  matrix <-- noise_rounds (range 3) lines width matrix ;;
  let middle_row := lines / 2 in
  let start_col := (width - len password) / 2 in
  matrix <-- reveal password lines middle_row start_col
               (range (List.length password)) matrix ;;
  print_matrix [] matrix ;;;
  print [Text newline; Fore MAGENTA; Style BRIGHT;
         Text (py "Password: " ++ password)] ;;;
  print [].

(** ** The command line *)

(** The parsed arguments the generation reads. *)
Record Namespace : Type := mkNamespace {
  arg_length : Z;
  arg_number : Z;
  no_uppercase : bool;
  no_lowercase : bool;
  no_numbers : bool;
  no_special : bool;
  arg_template : option str
}.

(** [for i in range(n): password = generate(); passwords.append(password)] *)
Fixpoint generate_loop (indices : list nat) (generate : M str)
  (generated_passwords : list str) : M (list str) :=
  match indices with
  | [] => ret generated_passwords
  | _ :: rest =>
      password <- generate ;;
      generate_loop rest generate (generated_passwords ++ [password])
  end.


(** Lines 445-466 *)
Definition generate_without_template (args : Namespace) : Eff (list str) :=
  length <--
    (if arg_length args <? 12 then
       print [Fore YELLOW;
              Text (py "Password length less than 12 is not recommended.")] ;;;
       print [Fore YELLOW; Text (py "Adjusting to minimum length of 12.")] ;;;
       eret 12
     else eret (arg_length args)) ;;
  no_lowercase <--
    (if no_uppercase args && no_lowercase args
        && no_numbers args && no_special args
     then
       print [Fore YELLOW;
              Text (py "Warning: At least one character type must be enabled.")] ;;;
       print [Fore YELLOW; Text (py "Using lowercase letters as default.")] ;;;
       eret false
     else eret (no_lowercase args)) ;;
  lift (generate_loop (range (Z.to_nat (arg_number args)))
          (generate_password length
             (negb (no_uppercase args)) (negb no_lowercase)
             (negb (no_numbers args)) (negb (no_special args)))
          []).


End Terminal.

(** The encoding UTF-8: every character but the surrogates. *)
Definition utf_8 (c : char) : bool := negb (in_range 55296 57343 c).

(** ** The vocabulary of the properties *)

(** How many characters of [s] belong to [alphabet]. *)
Definition class_count (alphabet s : str) : nat :=
  List.length (filter (fun c => char_in c alphabet) s).

(** [returns m Q]: whatever the random source, [m] raises nothing and its
    value satisfies [Q]. *)
Definition returns {A} (m : M A) (Q : A -> Prop) : Prop :=
  forall g, exists a g', m g = Ok (a, g') /\ Q a.

(** How many characters lines 36-44 reserve, and how many line 49 is asked
    to add. *)
Definition reserved_count_of (u l n s : bool) : Z :=
  (if s then 2 else 0) + (if u then 4 else 0)
  + (if l then 4 else 0) + (if n then 2 else 0).

Definition fill_count (length : Z) (u l n s : bool) : Z :=
  Z.max length 12 - reserved_count_of u l n s.

(** What [if b: password.extend(random.choices(alphabet, k=k))] appends. *)
Definition reserved (b : bool) (alphabet : str) (k : nat) (cs : str) : Prop :=
  if b then List.length cs = k /\ Forall (fun c => In c alphabet) cs
  else cs = [].

(** The directive characters, as the specification lists them. *)
Definition directives : str := py "ULDSX".

(** How many of the classes U, L, D, S occur in the template. *)
Definition present_classes (template : str) : nat :=
  List.length (filter (fun d => char_in d template) (py "ULDS")).

(** The characters the evaluator accepts besides the composer's. *)
Definition evaluator_only_specials : str := py "^*()+=[]{}|;:,.<>/".

(** A fixed random source, for running the composer on an example. *)
Definition sample_random : Random := mkRandom (fun n => (7 * n + 3)%nat) 0.

(** The password of twelve a's. *)
Definition twelve_a : str := py "aaaaaaaaaaaa".


(** What the template character [t] allows at its position of the
    output: a character of the class it names, or itself when it names
    none. *)
Definition position_ok (t c : char) : Prop :=
  (t = N_of_ascii "U" -> In c ascii_uppercase) /\
  (t = N_of_ascii "L" -> In c ascii_lowercase) /\
  (t = N_of_ascii "D" -> In c digits) /\
  (t = N_of_ascii "S" -> In c allowed_specials) /\
  (t = N_of_ascii "X" ->
   In c (ascii_uppercase ++ ascii_lowercase ++ digits ++ allowed_specials)) /\
  (~ In t directives -> c = t).

(** The evaluation written with integers only: the score with the
    diversity points as an integer quotient, and the feedback with the
    variety test as an integer comparison. *)
Definition integer_score (up lo di : char -> bool) (password : str) : Z :=
  fst (length_score (len password))
  + char_types up lo di password * 10
  + Z.min 20 (20 * unique_count password / len password).

Definition integer_feedback (up lo di : char -> bool) (password : str)
  : list string :=
  [snd (length_score (len password))]
  ++ class_feedback up lo di password
  ++ (if 2 * unique_count password <? len password
      then ["Add more variety of characters"%string] else []).

(** The float computations of lines 125 and 128 agree with their integer
    readings for [unique_chars = u] and [length = n]. *)
Definition float_agrees (u n : Z) : bool :=
  match diversity_score u n, lacks_variety u n with
  | Ok d, Ok few =>
      (d =? Z.min 20 (20 * u / n)) && Bool.eqb few (2 * u <? n)
  | _, _ => false
  end.

(** The lengths for which the agreement is checked by computation. *)
Definition checked_length : Z := 128.

Definition float_agrees_upto (bound : Z) : bool :=
  forallb (fun n =>
    forallb (fun u => float_agrees (Z.of_nat u) (Z.of_nat n)) (seq 1 n))
    (seq 1 (Z.to_nat bound)).

(** What [animate_password] shows once [k] characters are revealed. *)
Definition frame (password : str) (k : nat) : str :=
  firstn k password ++ repeat (N_of_ascii "*") (List.length password - k).

(** The events of one turn of the loop of lines 180-183. *)
Definition reveal_events (password : str) (i : nat) : list event :=
  [Print [Fore MAGENTA; Style BRIGHT; Text (frame password (S i))]
         carriage_return;
   Sleep 100].

(** The line printed for one item of the feedback (line 161). *)
Definition feedback_line (item : string) : event :=
  Print [Fore YELLOW; Text (py " " ++ [8226%N] ++ py " " ++ py item)] newline.

(** The line printed for the strength (line 156). *)
Definition strength_line (c : colour) (strength : string) (score : Z) : event :=
  Print [Fore c;
         Text (py "Strength: " ++ py strength ++ py " ("
               ++ str_of_int score ++ py "/100)")] newline.

(** The cell [matrix_effect] writes for the character [c] of the password
    (line 217). *)
Definition glyph (c : char) : cell :=
  [Fore WHITE; Style BRIGHT; Text [c]; Fore GREEN; Style NORMAL].

(** Every row of the matrix has [width] cells, and [sys.stdout] can encode
    each of them. *)
Definition rows_of_width (enc : char -> bool) (width : nat)
  (matrix : list (list cell)) : Prop :=
  Forall (fun row =>
            List.length row = width /\
            Forall (fun c : cell => text_encodable enc c = true) row) matrix.

(** The matrix has 5 rows of [width] printable cells, and its middle row
    shows the first [k] characters of the password from the column
    [start_col] on. *)
Definition revealed (enc : char -> bool) (password : str)
  (start_col width k : nat) (matrix : list (list cell)) : Prop :=
  List.length matrix = 5%nat /\
  rows_of_width enc width matrix /\
  exists left right,
    nth_error matrix 2 = Some (left ++ map glyph (firstn k password) ++ right)
    /\ List.length left = start_col.

(** Whatever the random source, [m] raises nothing and its value
    satisfies [Q]. *)
Definition eff_returns {A} (m : Eff A) (Q : A -> Prop) : Prop :=
  forall g, exists log a g', m g = (log, Ok (a, g')) /\ Q a.

(** The first and the last part of [display_password]: lines 147-151 and
    lines 163-168. *)
Definition show_password (enc : char -> bool) (password : str)
  (animate : bool) : Eff unit :=
  if animate then animate_password enc password
  else
    print enc [Fore GREEN; Style BRIGHT; Text (py "Generated Password:")] ;;;
    print enc [Fore MAGENTA; Style BRIGHT; Text password].

Definition copy_password (enc : char -> bool)
  (pyperclip_copy : str -> result unit)
  (password : str) (copy_to_clipboard : bool) : Eff unit :=
  if copy_to_clipboard then
    ecatch
      (lift_result (pyperclip_copy password) ;;;
       emit (ClipboardCopy password) ;;;
       print enc [Fore YELLOW;
                  Text ([10003%N] ++ py " Password copied to clipboard! ");
                  Fore GREEN; Text (py "[Ready to paste]")])
      (print enc [Fore YELLOW;
                  Text (py "! Could not copy password to clipboard")])
  else eret tt.

(** [m] does not read the random source and raises nothing but
    [UnicodeEncodeError]. *)
Definition only_encoding_errors (m : Eff unit) : Prop :=
  forall g, snd (m g) = Ok (tt, g) \/ snd (m g) = Raise UnicodeEncodeError.

(** [m] raises nothing, returns [None] and leaves the random source as it
    was, whatever that is. *)
Definition completes (m : Eff unit) : Prop :=
  forall g, exists log, m g = (log, Ok (tt, g)).

(** ** Reasoning about computations *)

Lemma returns_ret {A} (a : A) (Q : A -> Prop) : Q a -> returns (ret a) Q.
Proof. intros H g. exists a, g. split; [reflexivity | exact H]. Qed.

Lemma returns_bind {A B} (m : M A) (k : A -> M B) (P : A -> Prop) (Q : B -> Prop) :
  returns m P -> (forall a, P a -> returns (k a) Q) -> returns (bind m k) Q.
Proof.
  intros Hm Hk g.
  destruct (Hm g) as (a & g1 & E & Pa).
  destruct (Hk a Pa g1) as (b & g2 & E2 & Qb).
  exists b, g2. unfold bind. rewrite E. split; assumption.
Qed.

Lemma returns_weaken {A} (m : M A) (P Q : A -> Prop) :
  returns m P -> (forall a, P a -> Q a) -> returns m Q.
Proof.
  intros Hm HPQ g. destruct (Hm g) as (a & g1 & E & Pa).
  exists a, g1. split; [exact E | apply HPQ, Pa].
Qed.

Lemma returns_conj {A} (m : M A) (P Q : A -> Prop) :
  returns m P -> returns m Q -> returns m (fun a => P a /\ Q a).
Proof.
  intros HP HQ g.
  destruct (HP g) as (a & g1 & E & Pa), (HQ g) as (a' & g1' & E' & Qa).
  rewrite E in E'. injection E' as <- <-.
  exists a, g1. now split.
Qed.

Lemma returns_draw (n : nat) : (0 < n)%nat -> returns (draw n) (fun i => (i < n)%nat).
Proof.
  intros Hn g. unfold draw. eexists _, _. split; [reflexivity |].
  destruct (Nat.eqb_spec n 0) as [-> | Hne]; [lia |].
  apply Nat.mod_upper_bound. exact Hne.
Qed.

Lemma returns_getitem {A} (s : list A) (i : nat) :
  (i < List.length s)%nat ->
  returns (getitem s i) (fun a => nth_error s i = Some a).
Proof.
  intros Hi. unfold getitem.
  destruct (nth_error s i) as [a |] eqn:E.
  - apply returns_ret. reflexivity.
  - apply nth_error_None in E. lia.
Qed.

Lemma returns_setitem {A} (s : list A) (i : nat) (a : A) :
  (i < List.length s)%nat ->
  returns (setitem s i a) (fun s' => s' = update i a s).
Proof.
  intros Hi. unfold setitem.
  destruct (Nat.ltb_spec i (List.length s)); [| lia].
  apply returns_ret. reflexivity.
Qed.

Lemma returns_choice {A} (seq : list A) :
  seq <> [] -> returns (choice seq) (fun c => In c seq).
Proof.
  intros Hne. unfold choice.
  destruct seq as [| a seq']; [congruence |].
  cbn [List.length Nat.eqb].
  eapply returns_bind.
  - apply returns_draw. simpl. lia.
  - intros i Hi. eapply returns_weaken.
    + apply returns_getitem. exact Hi.
    + intros c Hc. eapply nth_error_In. exact Hc.
Qed.

Lemma returns_choices_n {A} (population : list A) (k : nat) :
  population <> [] ->
  returns (choices_n population k)
          (fun cs => List.length cs = k /\ Forall (fun c => In c population) cs).
Proof.
  intros Hne. induction k as [| k IH]; cbn [choices_n].
  - apply returns_ret. split; [reflexivity | constructor].
  - eapply returns_bind.
    { apply returns_draw. destruct population; [congruence | simpl; lia]. }
    intros i Hi. eapply returns_bind.
    { apply returns_getitem. exact Hi. }
    intros c Hc. eapply returns_bind; [exact IH |].
    intros cs [Hlen Hall]. apply returns_ret. split.
    + simpl. now rewrite Hlen.
    + constructor; [eapply nth_error_In; exact Hc | exact Hall].
Qed.

Lemma returns_choices {A} (population : list A) (k : Z) :
  population <> [] -> fits_ssize_t k = true ->
  returns (choices population k)
          (fun cs => List.length cs = Z.to_nat k /\
                     Forall (fun c => In c population) cs).
Proof.
  intros Hne Hk. unfold choices. rewrite Hk. now apply returns_choices_n.
Qed.

Lemma choices_overflow {A} (population : list A) (k : Z) (g : Random) :
  maxsize < k -> choices population k g = Raise OverflowError.
Proof.
  intros Hk. unfold choices, fits_ssize_t.
  destruct (Z.leb_spec k maxsize); [lia |].
  now rewrite andb_false_r.
Qed.

Lemma fits_ssize_t_range (k : Z) :
  - maxsize - 1 <= k <= maxsize -> fits_ssize_t k = true.
Proof.
  intros Hk. unfold fits_ssize_t.
  destruct (Z.leb_spec (- maxsize - 1) k), (Z.leb_spec k maxsize);
    try lia; reflexivity.
Qed.

(** ** The shuffle permutes *)

Lemma length_update {A} (i : nat) (a : A) (s : list A) :
  List.length (update i a s) = List.length s.
Proof.
  revert i. induction s as [| b s IH]; intros [| i]; simpl; auto.
Qed.

Lemma nth_error_update_same {A} (i : nat) (a : A) (s : list A) :
  (i < List.length s)%nat -> nth_error (update i a s) i = Some a.
Proof.
  revert i. induction s as [| b s IH]; intros [| i] Hi; simpl in *; try lia.
  - reflexivity.
  - apply IH. lia.
Qed.

Lemma nth_error_update_other {A} (i j : nat) (a : A) (s : list A) :
  i <> j -> nth_error (update i a s) j = nth_error s j.
Proof.
  revert i j. induction s as [| b s IH]; intros [| i] [| j] Hij; simpl;
    try reflexivity; try congruence.
  apply IH. congruence.
Qed.

(** Overwriting position [i], which held [a], with [b] trades one [a] for
    one [b]. *)
Lemma update_trade {A} (i : nat) (a b : A) (s : list A) :
  nth_error s i = Some a -> Permutation (b :: s) (a :: update i b s).
Proof.
  revert i. induction s as [| c s IH]; intros [| i] Hi; simpl in *;
    try discriminate.
  - injection Hi as ->. apply perm_swap.
  - specialize (IH i Hi).
    eapply perm_trans; [apply perm_swap |].
    eapply perm_trans; [apply perm_skip, IH |].
    apply perm_swap.
Qed.

Lemma returns_swap {A} (x : list A) (i j : nat) :
  (i < List.length x)%nat -> (j < List.length x)%nat ->
  returns (swap x i j) (fun x' => Permutation x x').
Proof.
  intros Hi Hj. unfold swap.
  eapply returns_bind; [apply returns_getitem, Hj |]. intros xj Hxj.
  eapply returns_bind; [apply returns_getitem, Hi |]. intros xi Hxi.
  eapply returns_bind; [apply returns_setitem, Hi |]. intros x1 ->.
  eapply returns_weaken.
  { apply returns_setitem. now rewrite length_update. }
  intros x2 ->.
  assert (H1 : Permutation (xj :: x) (xi :: update i xj x))
    by now apply update_trade.
  assert (Hj1 : nth_error (update i xj x) j = Some xj).
  { destruct (Nat.eq_dec i j) as [<- | Hij].
    - now apply nth_error_update_same.
    - now rewrite nth_error_update_other. }
  assert (H2 : Permutation (xi :: update i xj x)
                           (xj :: update j xi (update i xj x)))
    by now apply update_trade.
  eapply Permutation_cons_inv. eapply perm_trans; eassumption.
Qed.

Lemma returns_shuffle_from {A} (i : nat) (x : list A) :
  (i <= List.length x - 1)%nat ->
  returns (shuffle_from i x) (fun x' => Permutation x x').
Proof.
  revert x. induction i as [| i IH]; intros x Hi; cbn [shuffle_from].
  - apply returns_ret. apply Permutation_refl.
  - eapply returns_bind; [apply returns_draw; lia |]. intros j Hj.
    cbv beta in Hj.
    eapply returns_bind; [apply returns_swap; lia |]. intros x1 Hx1.
    eapply returns_weaken.
    + apply IH. rewrite <- (Permutation_length Hx1). lia.
    + intros x2 Hx2. eapply perm_trans; eassumption.
Qed.

Lemma returns_shuffle {A} (x : list A) :
  returns (shuffle x) (fun x' => Permutation x x').
Proof. unfold shuffle. apply returns_shuffle_from. lia. Qed.

(** ** Counting the characters of a class *)

Lemma char_in_In (c : char) (s : str) : char_in c s = true <-> In c s.
Proof.
  unfold char_in, char_eqb. rewrite existsb_exists. split.
  - intros (x & Hx & E). apply N.eqb_eq in E. now subst.
  - intros H. exists c. split; [exact H | apply N.eqb_refl].
Qed.




(** ** The shape of a generated password *)

Lemma reserved_length b alphabet k cs :
  reserved b alphabet k cs -> List.length cs = if b then k else O.
Proof. destruct b; simpl; [tauto | now intros ->]. Qed.


Lemma returns_extend_if (b : bool) (password : str) (m : M str) (P : str -> Prop) :
  (b = true -> returns m P) ->
  returns (extend_if b password m)
          (fun pw => exists cs, pw = password ++ cs /\
                                if b then P cs else cs = []).
Proof.
  intros Hm. unfold extend_if. destruct b.
  - eapply returns_bind; [apply Hm; reflexivity |].
    intros cs Hcs. apply returns_ret. now exists cs.
  - apply returns_ret. exists []. now rewrite app_nil_r.
Qed.

Lemma returns_reserve (b : bool) (password alphabet : str) (k : Z) :
  alphabet <> [] -> fits_ssize_t k = true ->
  returns (extend_if b password (choices alphabet k))
          (fun pw => exists cs, pw = password ++ cs /\
                                reserved b alphabet (Z.to_nat k) cs).
Proof.
  intros Hne Hk. apply returns_extend_if. intros _. now apply returns_choices.
Qed.

Lemma alphabets_nonempty :
  ascii_uppercase <> [] /\ ascii_lowercase <> [] /\
  digits <> [] /\ allowed_specials <> [].
Proof. repeat split; discriminate. Qed.

Lemma character_pool_nonempty u l n s : character_pool u l n s <> [].
Proof. destruct u, l, n, s; discriminate. Qed.

Lemma returns_reserved_characters u l n s :
  returns (reserved_characters u l n s)
    (fun pw => exists sp up lo di,
       pw = sp ++ up ++ lo ++ di /\
       reserved s allowed_specials 2 sp /\
       reserved u ascii_uppercase 4 up /\
       reserved l ascii_lowercase 4 lo /\
       reserved n digits 2 di).
Proof.
  destruct alphabets_nonempty as (HU & HL & HD & HS).
  unfold reserved_characters.
  eapply returns_bind; [now apply returns_reserve |].
  intros p1 (sp & -> & Hsp).
  eapply returns_bind; [now apply returns_reserve |].
  intros p2 (up & -> & Hup).
  eapply returns_bind; [now apply returns_reserve |].
  intros p3 (lo & -> & Hlo).
  eapply returns_bind; [now apply returns_reserve |].
  intros p4 (di & -> & Hdi).
  apply returns_ret. exists sp, up, lo, di.
  repeat split; try assumption.
  simpl. now rewrite <- !app_assoc.
Qed.

Lemma reserved_characters_length u l n s :
  returns (reserved_characters u l n s)
    (fun pw => len pw = reserved_count_of u l n s).
Proof.
  eapply returns_weaken; [apply returns_reserved_characters |].
  intros pw (sp & up & lo & di & -> & Hsp & Hup & Hlo & Hdi).
  apply reserved_length in Hsp, Hup, Hlo, Hdi.
  unfold len, reserved_count_of. rewrite !length_app, Hsp, Hup, Hlo, Hdi.
  destruct s, u, l, n; reflexivity.
Qed.

Lemma reserved_count_of_bounds u l n s : 0 <= reserved_count_of u l n s <= 12.
Proof. unfold reserved_count_of. destruct s, u, l, n; lia. Qed.

Lemma fill_count_below (length : Z) (u l n s : bool) :
  length <= maxsize -> fill_count length u l n s <= maxsize.
Proof.
  intros H. pose proof (reserved_count_of_bounds u l n s).
  unfold fill_count, maxsize in *. lia.
Qed.

Lemma returns_generate_password length u l n s :
  fill_count length u l n s <= maxsize ->
  returns (generate_password length u l n s)
    (fun pw => exists sp up lo di fill,
       Permutation (sp ++ up ++ lo ++ di ++ fill) pw /\
       reserved s allowed_specials 2 sp /\
       reserved u ascii_uppercase 4 up /\
       reserved l ascii_lowercase 4 lo /\
       reserved n digits 2 di /\
       Forall (fun c => In c (character_pool u l n s)) fill /\
       len pw = Z.max length 12).
Proof.
  intros Hfit. unfold generate_password.
  eapply returns_bind.
  { apply returns_conj;
      [apply returns_reserved_characters | apply reserved_characters_length]. }
  intros p0 [(sp & up & lo & di & -> & Hsp & Hup & Hlo & Hdi) Hp0].
  assert (Hfloor : (if length <? 12 then 12 else length) = Z.max length 12)
    by (destruct (Z.ltb_spec length 12); lia).
  rewrite Hfloor, Hp0. fold (fill_count length u l n s).
  pose proof (reserved_count_of_bounds u l n s) as Hres.
  eapply returns_bind.
  { apply returns_extend_if. intros Hpos. apply Z.ltb_lt in Hpos.
    apply returns_choices; [apply character_pool_nonempty |].
    apply fits_ssize_t_range. unfold maxsize in *. lia. }
  intros p1 (fill & -> & Hfill).
  eapply returns_bind; [apply returns_shuffle |].
  intros pw Hperm. apply returns_ret.
  exists sp, up, lo, di, fill.
  assert (Hpw : Permutation (sp ++ up ++ lo ++ di ++ fill) pw)
    by now rewrite <- !app_assoc in Hperm.
  repeat split; try assumption.
  - destruct (0 <? _); [tauto | subst fill; constructor].
  - unfold len in *. rewrite <- (Permutation_length Hperm).
    rewrite length_app. unfold fill_count in *.
    destruct (Z.ltb_spec 0 (Z.max length 12 - reserved_count_of u l n s))
      as [Hpos | Hle].
    + destruct Hfill as [-> _]. lia.
    + subst fill. simpl. lia.
Qed.

Lemma generate_password_overflow length u l n s (g : Random) :
  maxsize < fill_count length u l n s ->
  generate_password length u l n s g = Raise OverflowError.
Proof.
  intros Hbig. unfold generate_password.
  destruct (reserved_characters_length u l n s g) as (p0 & g1 & E & Hp0).
  assert (Hfloor : (if length <? 12 then 12 else length) = Z.max length 12)
    by (destruct (Z.ltb_spec length 12); lia).
  rewrite Hfloor. unfold bind at 1. rewrite E, Hp0.
  fold (fill_count length u l n s). unfold extend_if.
  destruct (Z.ltb_spec 0 (fill_count length u l n s));
    [| unfold maxsize in *; lia].
  unfold bind. now rewrite choices_overflow.
Qed.

(** ** Template generation *)

Lemma dict_get_pattern_map_nonempty (c : char) (alphabet : str) :
  dict_get c pattern_map = Some alphabet -> alphabet <> [].
Proof.
  unfold pattern_map. cbn [dict_get].
  repeat (destruct (char_eqb c _); [intros [= <-]; discriminate |]).
  discriminate.
Qed.

Lemma dict_get_literal (c : char) :
  ~ In c directives -> dict_get c pattern_map = None.
Proof.
  intros Hc. unfold pattern_map. cbn [dict_get]. unfold char_eqb.
  repeat match goal with
  | |- context [N.eqb c ?k] =>
      destruct (N.eqb_spec c k) as [-> | _];
      [exfalso; apply Hc; vm_compute; tauto |]
  end.
  reflexivity.
Qed.

Lemma returns_template_loop (template result : str) :
  returns (template_loop template result)
    (fun pw => List.length pw = (List.length result + List.length template)%nat).
Proof.
  revert result. induction template as [| char rest IH]; intros result;
    cbn [template_loop].
  - apply returns_ret. simpl. lia.
  - eapply returns_bind with (P := fun _ => True).
    + destruct (dict_get char pattern_map) as [alphabet |] eqn:E.
      * eapply returns_weaken; [| intros; exact I].
        apply returns_choice. eapply dict_get_pattern_map_nonempty, E.
      * now apply returns_ret.
    + intros c _. eapply returns_weaken; [apply IH |].
      intros pw ->. rewrite length_app. simpl. lia.
Qed.

Lemma template_loop_literals (template result : str) (g : Random) :
  (forall c, In c template -> ~ In c directives) ->
  template_loop template result g = Ok (result ++ template, g).
Proof.
  revert result. induction template as [| char rest IH]; intros result Hlit;
    cbn [template_loop].
  - unfold ret. now rewrite app_nil_r.
  - rewrite dict_get_literal by (apply Hlit; now left).
    unfold bind, ret. rewrite IH by (intros c Hc; apply Hlit; now right).
    now rewrite <- app_assoc.
Qed.

(** ** Runs of the model *)

Example generate_password_run :
  exists g',
    generate_password 5 true true true true sample_random
    = Ok (py "RFhMo3a0$@tY", g') /\ cursor g' = 23%nat.
Proof. eexists. split; vm_compute; reflexivity. Qed.

Example generate_from_template_run :
  exists g',
    generate_from_template (py "UULLDDSS") sample_random
    = Ok (py "DKry18!-", g') /\ cursor g' = 8%nat.
Proof. eexists. split; vm_compute; reflexivity. Qed.

Example choices_empty_population :
  choices ([] : str) 1 sample_random = Raise IndexError.
Proof. reflexivity. Qed.

Example diversity_score_run : diversity_score 7 10 = Ok 14.
Proof. vm_compute. reflexivity. Qed.

(** ** The properties of the composer *)













(** C5: for every template and random source [generate_from_template]
    returns a password as long as the template; the 8-character template
    UULLDDSS gives 8 characters. *)
Theorem generate_from_template_length :
  (forall (g : Random) (template : str),
   exists pw g',
     generate_from_template template g = Ok (pw, g') /\
     List.length pw = List.length template) /\
  (forall g : Random,
   exists pw g',
     generate_from_template (py "UULLDDSS") g = Ok (pw, g') /\
     List.length pw = 8%nat).
Proof.
  assert (H : forall (g : Random) (template : str),
    exists pw g',
      generate_from_template template g = Ok (pw, g') /\
      List.length pw = List.length template).
  { intros g template.
    destruct (returns_template_loop template [] g) as (pw & g' & E & Hlen).
    exists pw, g'. split; [exact E | exact Hlen]. }
  split; [exact H |].
  intros g. exact (H g (py "UULLDDSS")).
Qed.

(** C9: on a template holding none of the directives U, L, D, S, X,
    [generate_from_template] returns the template itself (and reads nothing
    from the random source); so it does on ABC-123. *)
Theorem generate_from_template_literal_identity :
  forall (g : Random) (template : str),
    (forall c, In c template -> ~ In c directives) ->
    generate_from_template template g = Ok (template, g).
Proof.
  intros g template Hlit. unfold generate_from_template.
  now rewrite template_loop_literals.
Qed.

Lemma generate_from_template_literal_identity_witness :
  generate_from_template (py "ABC-123") sample_random
  = Ok (py "ABC-123", sample_random).
Proof.
  apply generate_from_template_literal_identity.
  intros c Hc Hd. vm_compute in Hc, Hd.
  repeat (destruct Hc as [<- | Hc]; [intuition discriminate |]).
  exact Hc.
Defined.

(** ** The properties of the template check *)

Lemma is_valid_template_unfold (template : str) :
  is_valid_template template =
  if len template <? 12 then false
  else 4 - Z.of_nat (present_classes template)
       <=? Z.of_nat (str_count (N_of_ascii "X") template).
Proof.
  unfold is_valid_template, present_classes, sum_bools.
  change (py "ULDS") with
    [N_of_ascii "U"; N_of_ascii "L"; N_of_ascii "D"; N_of_ascii "S"].
  cbn [filter fold_left].
  destruct (len template <? 12); [reflexivity |].
  destruct (char_in (N_of_ascii "U") template),
           (char_in (N_of_ascii "L") template),
           (char_in (N_of_ascii "D") template),
           (char_in (N_of_ascii "S") template); reflexivity.
Qed.

(** C6: [is_valid_template] is false on a template shorter than 12;
    otherwise it is true exactly when the template has at least
    4 - (number of classes among U, L, D, S that occur in it) characters X.
    It is false on UUUU and true on every 12-character template in which
    U, L, D and S all occur. *)
Theorem is_valid_template_spec :
  (forall template : str, len template < 12 -> is_valid_template template = false) /\
  (forall template : str, 12 <= len template ->
     (is_valid_template template = true <->
      4 - Z.of_nat (present_classes template)
      <= Z.of_nat (str_count (N_of_ascii "X") template))) /\
  is_valid_template (py "UUUU") = false /\
  (forall template : str,
     len template = 12 ->
     In (N_of_ascii "U") template -> In (N_of_ascii "L") template ->
     In (N_of_ascii "D") template -> In (N_of_ascii "S") template ->
     is_valid_template template = true).
Proof.
  split; [| split; [| split]].
  - intros template Hshort. unfold is_valid_template.
    destruct (Z.ltb_spec (len template) 12); [reflexivity | lia].
  - intros template Hlong. rewrite is_valid_template_unfold.
    destruct (Z.ltb_spec (len template) 12); [lia |].
    apply Z.leb_le.
  - reflexivity.
  - intros template Hlen HU HL HD HS.
    apply char_in_In in HU, HL, HD, HS.
    unfold is_valid_template. rewrite Hlen, HU, HL, HD, HS.
    cbn -[str_count]. apply Z.leb_le. lia.
Qed.

Lemma is_valid_template_spec_witness :
  is_valid_template (py "aaaa") = false /\
  (is_valid_template (py "UUUUUUUUUXXX") = true <->
   4 - Z.of_nat (present_classes (py "UUUUUUUUUXXX"))
   <= Z.of_nat (str_count (N_of_ascii "X") (py "UUUUUUUUUXXX"))) /\
  is_valid_template (py "ULDS-ULDS-UL") = true.
Proof.
  destruct is_valid_template_spec as (Hshort & Hiff & _ & Hall).
  split; [| split].
  - apply Hshort. vm_compute. reflexivity.
  - apply Hiff. vm_compute. discriminate.
  - apply Hall; vm_compute; tauto.
Defined.

(** ** The properties of the evaluator *)

(** C1: on the empty string the evaluator gets 15 points from the length
    and none from the classes, then divides by the length at line 125:
    [evaluate_password_strength] raises [ZeroDivisionError] instead of
    returning a score. *)
Theorem evaluate_empty_raises :
  forall up lo di : char -> bool,
    fst (length_score (len (py ""))) = 15 /\
    char_types up lo di (py "") = 0 /\
    diversity_score (unique_count (py "")) (len (py ""))
    = Raise ZeroDivisionError /\
    evaluate_password_strength up lo di (py "") = Raise ZeroDivisionError.
Proof. intros up lo di. repeat split. Qed.

(** C7: on twelve a's the evaluator returns the score 41 (30 for the
    length, 10 for the one class present, 1 for the diversity) and the label
    Weak, and the feedback holds the advice to add uppercase letters,
    numbers, special characters and more variety. *)
Theorem evaluate_twelve_a :
  forall up lo di : char -> bool,
    fst (length_score (len twelve_a)) = 30 /\
    char_types up lo di twelve_a * 10 = 10 /\
    diversity_score (unique_count twelve_a) (len twelve_a) = Ok 1 /\
    exists feedback,
      evaluate_password_strength up lo di twelve_a
      = Ok (41, "Weak"%string, feedback) /\
      In "Add uppercase letters"%string feedback /\
      In "Add numbers"%string feedback /\
      In "Add special characters"%string feedback /\
      In "Add more variety of characters"%string feedback.
Proof.
  intros up lo di. repeat split.
  exists ["Acceptable length"; "Add uppercase letters"; "Add numbers";
          "Add special characters"; "Add more variety of characters"]%string.
  split; [vm_compute; reflexivity |].
  simpl. tauto.
Qed.

(** ** The two special alphabets *)

Lemma forallb_char_in (a b : str) :
  forallb (fun c => char_in c b) a = true ->
  forall c, In c a -> In c b.
Proof.
  intros H c Hc. rewrite forallb_forall in H.
  apply char_in_In. now apply H.
Qed.

(** C8: the composer's special alphabet is the nine symbols
    [!@#$%&_-?]; the evaluator counts each of them as special, and counts
    as special exactly these and the eighteen of [^*()+=[]{}|;:,.<>/],
    none of which is in the composer's alphabet.  The directive S of a
    template draws from the composer's alphabet too. *)
Theorem special_alphabets :
  allowed_specials = py "!@#$%&_-?" /\
  List.length allowed_specials = 9%nat /\
  NoDup allowed_specials /\
  (forall c, In c allowed_specials -> is_special c = true) /\
  (forall c, is_special c = true <->
             In c allowed_specials \/ In c evaluator_only_specials) /\
  (forall c, In c evaluator_only_specials -> ~ In c allowed_specials) /\
  (exists c, is_special c = true /\ ~ In c allowed_specials) /\
  dict_get (N_of_ascii "S") pattern_map = Some allowed_specials.
Proof.
  split; [reflexivity |]. split; [reflexivity |].
  split.
  { change allowed_specials with (nodup N.eq_dec allowed_specials).
    apply NoDup_nodup. }
  split.
  { intros c Hc. apply char_in_In. revert c Hc.
    apply forallb_char_in. reflexivity. }
  split.
  { intros c. unfold is_special. rewrite char_in_In, <- in_app_iff. split.
    - revert c. apply forallb_char_in. reflexivity.
    - revert c. apply forallb_char_in. reflexivity. }
  split.
  { intros c Hc Hs. apply char_in_In in Hs.
    assert (H : forallb (fun c => negb (char_in c allowed_specials))
                        evaluator_only_specials = true) by reflexivity.
    rewrite forallb_forall in H. apply H in Hc.
    rewrite Hs in Hc. discriminate. }
  split; [| reflexivity].
  exists (N_of_ascii "^"). split; [reflexivity |].
  intros H. apply char_in_In in H. discriminate.
Qed.

(** ** Further properties of the composer *)










Lemma choices_n_app {A} (population : list A) (a b : nat) (g : Random) :
  choices_n population (a + b) g =
  (cs1 <- choices_n population a ;;
   cs2 <- choices_n population b ;;
   ret (cs1 ++ cs2)) g.
Proof.
  revert g. induction a as [| a IH]; intros g; cbn [choices_n Nat.add].
  - unfold bind, ret. destruct (choices_n population b g) as [[cs g'] | e];
      reflexivity.
  - unfold bind, ret in IH |- *.
    destruct (draw (List.length population) g) as [[i g1] | e];
      [| reflexivity].
    destruct (getitem population i g1) as [[c g2] | e]; [| reflexivity].
    rewrite IH.
    destruct (choices_n population a g2) as [[cs1 g3] | e]; [| reflexivity].
    destruct (choices_n population b g3) as [[cs2 g4] | e]; reflexivity.
Qed.

Lemma choices_fits {A} (population : list A) (k : Z) :
  fits_ssize_t k = true ->
  choices population k = choices_n population (Z.to_nat k).
Proof. intros Hk. unfold choices. now rewrite Hk. Qed.

Lemma generate_password_fallback_aux :
  forall (g : Random) (length : Z),
    length <= maxsize \/ maxsize + 4 < length ->
    generate_password length false false false false g
    = generate_password length false true false false g.
Proof.
  intros g length [Hsmall | Hbig].
  2:{ rewrite !generate_password_overflow; [reflexivity | |];
        unfold fill_count, reserved_count_of, maxsize in *; lia. }
  unfold generate_password.
  set (L := if length <? 12 then 12 else length).
  assert (HL : 12 <= L <= maxsize).
  { subst L. unfold maxsize in *. destruct (Z.ltb_spec length 12); lia. }
  change (character_pool false false false false) with ascii_lowercase.
  change (character_pool false true false false) with ascii_lowercase.
  destruct alphabets_nonempty as (_ & Hne & _ & _).
  destruct (returns_choices_n ascii_lowercase 4 Hne g)
    as (cs4 & g1 & E4 & Hlen4 & _).
  pose proof (choices_n_app ascii_lowercase 4 (Z.to_nat (L - 4)) g) as Happ.
  replace (4 + Z.to_nat (L - 4))%nat with (Z.to_nat L) in Happ
    by (unfold maxsize in *; lia).
  unfold reserved_characters, extend_if.
  change (choices ascii_lowercase 4) with (choices_n ascii_lowercase 4).
  unfold bind, ret in Happ |- *. rewrite E4 in Happ |- *.
  cbn [app]. unfold len. rewrite Hlen4. cbn [List.length].
  change (Z.of_nat 0) with 0. change (Z.of_nat 4) with 4.
  rewrite Z.sub_0_r.
  destruct (Z.ltb_spec 0 L); [| lia].
  destruct (Z.ltb_spec 0 (L - 4)); [| lia].
  rewrite !choices_fits
    by (apply fits_ssize_t_range; unfold maxsize in *; lia).
  rewrite Happ.
  destruct (choices_n ascii_lowercase (Z.to_nat (L - 4)) g1)
    as [[cs8 g2] | e]; reflexivity.
Qed.

(** X2: with the four classes disabled [generate_password] does, draw for
    draw, what it does with lowercase alone enabled: the two calls return
    the same password from the same random source, and fail alike.  The
    lengths 2^63 to 2^63 + 3 are excepted: there the first call asks
    [random.choices] for more than [sys.maxsize] characters and raises
    [OverflowError], while the second, having reserved 4, does not. *)
Theorem generate_password_fallback_is_lowercase_only :
  forall (g : Random) (length : Z),
    length <= maxsize \/ maxsize + 4 < length ->
    generate_password length false false false false g
    = generate_password length false true false false g.
Proof. exact generate_password_fallback_aux. Qed.

(** Why X2 excepts the lengths 2^63 to 2^63 + 3. *)
Example generate_password_fallback_differs :
  generate_password (2 ^ 63) false false false false sample_random
  <> generate_password (2 ^ 63) false true false false sample_random.
Proof.
  rewrite (generate_password_overflow (2 ^ 63) false false false false)
    by (vm_compute; reflexivity).
  destruct (returns_generate_password (2 ^ 63) false true false false
              ltac:(vm_compute; discriminate) sample_random)
    as (pw & g' & E & _).
  rewrite E. discriminate.
Qed.

Lemma generate_password_fallback_is_lowercase_only_witness :
  generate_password 12 false false false false sample_random
  = generate_password 12 false true false false sample_random.
Proof.
  apply generate_password_fallback_is_lowercase_only.
  left. vm_compute. discriminate.
Defined.

(** ** Further properties of template generation *)

Lemma position_ok_directive (t c : char) (alphabet : str) :
  dict_get t pattern_map = Some alphabet -> In c alphabet -> position_ok t c.
Proof.
  unfold pattern_map. cbn [dict_get]. unfold char_eqb.
  repeat match goal with
  | |- context [N.eqb t ?k] => destruct (N.eqb_spec t k) as [-> | ?]
  end;
  try discriminate; intros [= <-] Hc; unfold position_ok;
  repeat split; intros H; try discriminate H; try exact Hc;
  exfalso; apply H; vm_compute; tauto.
Qed.

Lemma position_ok_literal (t : char) :
  dict_get t pattern_map = None -> position_ok t t.
Proof.
  unfold pattern_map. cbn [dict_get]. unfold char_eqb.
  repeat match goal with
  | |- context [N.eqb t ?k] => destruct (N.eqb_spec t k) as [-> | ?]
  end;
  try discriminate; intros _; unfold position_ok;
  repeat split; intros H; try reflexivity; contradiction.
Qed.

Lemma returns_template_loop_positions (template result : str) :
  returns (template_loop template result)
    (fun pw => exists out, pw = result ++ out /\
                           Forall2 position_ok template out).
Proof.
  revert result. induction template as [| t rest IH]; intros result;
    cbn [template_loop].
  - apply returns_ret. exists []. split; [now rewrite app_nil_r | constructor].
  - eapply returns_bind with (P := position_ok t).
    + destruct (dict_get t pattern_map) as [alphabet |] eqn:E.
      * eapply returns_weaken.
        { apply returns_choice. eapply dict_get_pattern_map_nonempty, E. }
        intros c Hc. eapply position_ok_directive; eassumption.
      * apply returns_ret. now apply position_ok_literal.
    + intros c Hc. eapply returns_weaken; [apply IH |].
      intros pw (out & -> & Hout). exists (c :: out). split.
      * now rewrite <- app_assoc.
      * now constructor.
Qed.

(** X3: position by position, the password [generate_from_template]
    returns follows the template: an uppercase letter under U, a lowercase
    letter under L, a digit under D, one of the nine specials under S, a
    character of these four alphabets under X, and the template's own
    character anywhere else. *)
Theorem generate_from_template_positions :
  forall (g : Random) (template : str),
  exists pw g',
    generate_from_template template g = Ok (pw, g') /\
    Forall2 position_ok template pw.
Proof.
  intros g template.
  destruct (returns_template_loop_positions template [] g)
    as (pw & g' & E & out & -> & Hout).
  exists out, g'. split; [exact E | exact Hout].
Qed.

(** ** Further properties of the evaluator *)

Section EvaluatorFacts.

Variables up lo di : char -> bool.

Lemma isupper_ascii_uppercase (c : char) :
  In c ascii_uppercase -> isupper up c = true.
Proof.
  assert (F : forallb (isupper up) ascii_uppercase = true) by reflexivity.
  rewrite forallb_forall in F. apply F.
Qed.

Lemma islower_ascii_lowercase (c : char) :
  In c ascii_lowercase -> islower lo c = true.
Proof.
  assert (F : forallb (islower lo) ascii_lowercase = true) by reflexivity.
  rewrite forallb_forall in F. apply F.
Qed.

Lemma isdigit_digits (c : char) : In c digits -> isdigit di c = true.
Proof.
  assert (F : forallb (isdigit di) digits = true) by reflexivity.
  rewrite forallb_forall in F. apply F.
Qed.

Lemma is_special_allowed_specials (c : char) :
  In c allowed_specials -> is_special c = true.
Proof.
  assert (F : forallb is_special allowed_specials = true) by reflexivity.
  rewrite forallb_forall in F. apply F.
Qed.

Lemma existsb_of_member (f : char -> bool) (alphabet pw : str) (c : char) :
  (forall c, In c alphabet -> f c = true) ->
  In c pw -> In c alphabet -> existsb f pw = true.
Proof.
  intros Hf Hpw Hc. apply existsb_exists. exists c. split; auto.
Qed.

Lemma class_count_pos (alphabet pw : str) :
  (0 < class_count alphabet pw)%nat -> exists c, In c pw /\ In c alphabet.
Proof.
  unfold class_count. induction pw as [| c pw IH]; simpl; [lia |].
  destruct (char_in c alphabet) eqn:E.
  - intros _. exists c. split; [now left | now apply char_in_In].
  - intros H. destruct (IH H) as (c' & Hin & Ha).
    exists c'. split; [now right | exact Ha].
Qed.

Lemma all_classes_present (pw : str) :
  existsb (isupper up) pw = true -> existsb (islower lo) pw = true ->
  existsb (isdigit di) pw = true -> existsb is_special pw = true ->
  char_types up lo di pw = 4 /\ class_feedback up lo di pw = [].
Proof.
  intros HU HL HD HS. unfold char_types, class_feedback.
  rewrite HU, HL, HD, HS. split; reflexivity.
Qed.

End EvaluatorFacts.


Lemma Forall2_in_left {A B} (R : A -> B -> Prop) (l : list A) (l' : list B) (a : A) :
  Forall2 R l l' -> In a l -> exists b, In b l' /\ R a b.
Proof.
  induction 1 as [| x y l l' Hxy _ IH]; intros Hin; [destruct Hin |].
  destruct Hin as [-> | Hin].
  - exists y. split; [now left | exact Hxy].
  - destruct (IH Hin) as (b & Hb & Hab). exists b. split; [now right | exact Hab].
Qed.

Lemma existsb_perm {A} (f : A -> bool) (a b : list A) :
  Permutation a b -> existsb f a = existsb f b.
Proof.
  induction 1 as [| x a b _ IH | x y a | a b c _ IH1 _ IH2]; simpl.
  - reflexivity.
  - now rewrite IH.
  - destruct (f x), (f y); reflexivity.
  - now rewrite IH1.
Qed.

Lemma unique_count_incl (a b : str) :
  incl a b -> unique_count a <= unique_count b.
Proof.
  intros Hincl. unfold unique_count, len. apply inj_le.
  apply NoDup_incl_length; [apply NoDup_nodup |].
  intros c Hc. apply nodup_In. apply Hincl. now apply nodup_In in Hc.
Qed.

Lemma unique_count_perm (a b : str) :
  Permutation a b -> unique_count a = unique_count b.
Proof.
  intros H. apply Z.le_antisymm; apply unique_count_incl; intros c Hc.
  - eapply Permutation_in; eassumption.
  - eapply Permutation_in; [apply Permutation_sym |]; eassumption.
Qed.

Lemma unique_count_bounds (pw : str) :
  pw <> [] -> 1 <= unique_count pw <= len pw.
Proof.
  intros Hne. unfold unique_count, len. split.
  - destruct pw as [| c pw]; [congruence |].
    assert (Hc : In c (nodup N.eq_dec (c :: pw))) by (apply nodup_In; now left).
    destruct (nodup N.eq_dec (c :: pw)); [destruct Hc | simpl; lia].
  - apply inj_le. apply NoDup_incl_length; [apply NoDup_nodup |].
    intros c Hc. now apply nodup_In in Hc.
Qed.

Lemma float_agrees_upto_sound (bound u n : Z) :
  float_agrees_upto bound = true ->
  1 <= u <= n -> n <= bound -> float_agrees u n = true.
Proof.
  intros T Hu Hn. unfold float_agrees_upto in T.
  rewrite forallb_forall in T.
  specialize (T (Z.to_nat n)). rewrite forallb_forall in T.
  rewrite <- (Z2Nat.id u), <- (Z2Nat.id n) by lia.
  apply T; apply in_seq; lia.
Qed.

Lemma float_table : float_agrees_upto checked_length = true.
Proof. vm_compute. reflexivity. Qed.

Lemma float_agrees_in_range (u n : Z) :
  1 <= u <= n -> n <= checked_length -> float_agrees u n = true.
Proof. apply float_agrees_upto_sound, float_table. Qed.

Lemma to_int_no_zero_division (x : PyFloat.float) :
  PyFloat.to_int x <> Raise ZeroDivisionError.
Proof. destruct x; simpl; discriminate. Qed.

(** X4: reordering the characters of a password changes nothing in its
    evaluation: same score, same label, same feedback (or same exception). *)
Theorem evaluate_permutation_invariant :
  forall (up lo di : char -> bool) (pw pw' : str),
    Permutation pw pw' ->
    evaluate_password_strength up lo di pw
    = evaluate_password_strength up lo di pw'.
Proof.
  intros up lo di pw pw' H.
  unfold evaluate_password_strength, char_types, class_feedback, len.
  rewrite (Permutation_length H), (unique_count_perm _ _ H).
  rewrite !(existsb_perm _ _ _ H). reflexivity.
Qed.

Lemma evaluate_permutation_invariant_witness :
  evaluate_password_strength (fun _ => false) (fun _ => false) (fun _ => false)
    (py "abc123")
  = evaluate_password_strength (fun _ => false) (fun _ => false) (fun _ => false)
    (py "321cba").
Proof.
  apply evaluate_permutation_invariant.
  change (py "321cba") with (rev (py "abc123")). apply Permutation_rev.
Defined.

Lemma evaluate_zero_division_aux :
  forall (up lo di : char -> bool) (pw : str),
    evaluate_password_strength up lo di pw = Raise ZeroDivisionError
    <-> pw = [].
Proof.
  intros up lo di pw. split.
  - intros H. destruct pw as [| c pw]; [reflexivity | exfalso].
    revert H. unfold evaluate_password_strength, diversity_score,
      lacks_variety, PyFloat.truediv.
    assert (Hlen : (len (c :: pw) =? 0) = false)
      by (apply Z.eqb_neq; unfold len; simpl; lia).
    rewrite Hlen. cbn [rbind Z.eqb].
    destruct (PyFloat.to_int _) as [d | e] eqn:E; cbn [rbind].
    + discriminate.
    + intros [= ->]. eapply to_int_no_zero_division, E.
  - intros ->. reflexivity.
Qed.

(** X5: [evaluate_password_strength] raises [ZeroDivisionError] on the
    empty password and on no other. *)
Theorem evaluate_zero_division_iff_empty :
  forall (up lo di : char -> bool) (pw : str),
    evaluate_password_strength up lo di pw = Raise ZeroDivisionError
    <-> pw = [].
Proof. exact evaluate_zero_division_aux. Qed.

Lemma evaluate_integer_reading_aux :
  forall (up lo di : char -> bool) (pw : str),
    pw <> [] -> len pw <= checked_length ->
    evaluate_password_strength up lo di pw
    = Ok (integer_score up lo di pw,
          strength_of (integer_score up lo di pw),
          integer_feedback up lo di pw) /\
    15 <= integer_score up lo di pw <= 100.
Proof.
  intros up lo di pw Hne Hlen.
  pose proof (unique_count_bounds pw Hne) as Hu.
  pose proof (float_agrees_in_range _ _ Hu Hlen) as Hf.
  unfold float_agrees in Hf.
  split.
  - unfold evaluate_password_strength, integer_score, integer_feedback.
    destruct (diversity_score (unique_count pw) (len pw)) as [d | e];
      [| discriminate].
    destruct (lacks_variety (unique_count pw) (len pw)) as [few | e];
      [| discriminate].
    apply andb_prop in Hf. destruct Hf as [Hd Hfew].
    apply Z.eqb_eq in Hd. apply Bool.eqb_prop in Hfew. subst d few.
    cbn [rbind]. rewrite Z.add_0_l, app_nil_l.
    destruct (2 * unique_count pw <? len pw);
      rewrite <- ?app_assoc, ?app_nil_r; reflexivity.
  - unfold integer_score.
    assert (H1 : 15 <= fst (length_score (len pw)) <= 40).
    { unfold length_score.
      destruct (16 <=? len pw); [simpl; lia |].
      destruct (12 <=? len pw); simpl; lia. }
    assert (H2 : 0 <= char_types up lo di pw <= 4).
    { unfold char_types, sum_bools. cbn [fold_left].
      destruct (existsb (isupper up) pw), (existsb (islower lo) pw),
        (existsb (isdigit di) pw), (existsb is_special pw); lia. }
    assert (H3 : 0 <= 20 * unique_count pw / len pw)
      by (apply Z.div_pos; lia).
    lia.
Qed.


(** X6: on a non-empty password of at most 128 characters the evaluator
    returns, and the float arithmetic of lines 125 and 128 gives what the
    integers give: the diversity points are min(20, 20 * unique / length)
    rounded down and the variety advice is given exactly when
    2 * unique < length.  The score lies between 15 and 100. *)
Theorem evaluate_integer_reading :
  forall (up lo di : char -> bool) (pw : str),
    pw <> [] -> len pw <= checked_length ->
    evaluate_password_strength up lo di pw
    = Ok (integer_score up lo di pw,
          strength_of (integer_score up lo di pw),
          integer_feedback up lo di pw) /\
    15 <= integer_score up lo di pw <= 100.
Proof. exact evaluate_integer_reading_aux. Qed.

Lemma evaluate_integer_reading_witness :
  evaluate_password_strength (fun _ => false) (fun _ => false) (fun _ => false)
    (py "Tr0ub4dor&3")
  = Ok (integer_score (fun _ => false) (fun _ => false) (fun _ => false)
          (py "Tr0ub4dor&3"),
        strength_of
          (integer_score (fun _ => false) (fun _ => false) (fun _ => false)
             (py "Tr0ub4dor&3")),
        integer_feedback (fun _ => false) (fun _ => false) (fun _ => false)
          (py "Tr0ub4dor&3")) /\
  15 <= integer_score (fun _ => false) (fun _ => false) (fun _ => false)
          (py "Tr0ub4dor&3") <= 100.
Proof.
  apply evaluate_integer_reading.
  - discriminate.
  - vm_compute. discriminate.
Defined.

(** ** The composer under the evaluator *)

Lemma member_isupper up (pw : str) :
  (exists c, In c pw /\ In c ascii_uppercase) -> existsb (isupper up) pw = true.
Proof.
  intros (c & Hc & Ha).
  eapply existsb_of_member; eauto using isupper_ascii_uppercase.
Qed.

Lemma member_islower lo (pw : str) :
  (exists c, In c pw /\ In c ascii_lowercase) -> existsb (islower lo) pw = true.
Proof.
  intros (c & Hc & Ha).
  eapply existsb_of_member; eauto using islower_ascii_lowercase.
Qed.

Lemma member_isdigit di (pw : str) :
  (exists c, In c pw /\ In c digits) -> existsb (isdigit di) pw = true.
Proof.
  intros (c & Hc & Ha). eapply existsb_of_member; eauto using isdigit_digits.
Qed.

Lemma member_is_special (pw : str) :
  (exists c, In c pw /\ In c allowed_specials) -> existsb is_special pw = true.
Proof.
  intros (c & Hc & Ha).
  eapply existsb_of_member; eauto using is_special_allowed_specials.
Qed.

Lemma reserved_member (alphabet cs : str) (k : nat) :
  reserved true alphabet (S k) cs -> exists c, In c cs /\ In c alphabet.
Proof.
  intros [Hlen Hall]. destruct cs as [| c cs]; [discriminate |].
  exists c. split; [now left | now inversion Hall].
Qed.

Lemma generate_password_members length u l n s :
  fill_count length u l n s <= maxsize ->
  returns (generate_password length u l n s)
    (fun pw =>
       len pw = Z.max length 12 /\
       (u = true -> exists c, In c pw /\ In c ascii_uppercase) /\
       (l = true -> exists c, In c pw /\ In c ascii_lowercase) /\
       (n = true -> exists c, In c pw /\ In c digits) /\
       (s = true -> exists c, In c pw /\ In c allowed_specials)).
Proof.
  intros Hfit.
  eapply returns_weaken; [apply returns_generate_password, Hfit |].
  intros pw (sp & up & lo & di & fill & Hperm
             & Hsp & Hup & Hlo & Hdi & _ & Hlen).
  split; [exact Hlen |].
  repeat split; intros ->;
    match goal with
    | H : reserved true ?a _ _ |- exists c, _ /\ In c ?a =>
        destruct (reserved_member _ _ _ H) as (c & Hc & Ha)
    end;
    exists c; (split; [| exact Ha]);
    (eapply Permutation_in; [exact Hperm |]);
    rewrite !in_app_iff; tauto.
Qed.



(** X8: a password generated with the four classes enabled and a requested
    length of at most 128 is always rated Strong or Very Strong: the
    evaluator returns a score of at least 70, and of at least 80 when the
    requested length is 16 or more. *)
Theorem generate_password_rated_strong :
  forall (up lo di : char -> bool) (g : Random) (length : Z),
    length <= checked_length ->
    exists pw g' score label feedback,
      generate_password length true true true true g = Ok (pw, g') /\
      evaluate_password_strength up lo di pw = Ok (score, label, feedback) /\
      70 <= score <= 100 /\
      (16 <= length -> 80 <= score) /\
      (label = "Strong"%string \/ label = "Very Strong"%string).
Proof.
  intros up lo di g length Hlen.
  assert (Hfit : fill_count length true true true true <= maxsize).
  { apply fill_count_below. unfold checked_length, maxsize in *. lia. }
  destruct (generate_password_members length true true true true Hfit g)
    as (pw & g' & E & Hpw & HU & HL & HD & HS).
  assert (Hne : pw <> []).
  { intros ->. unfold len in Hpw. simpl in Hpw. lia. }
  assert (Hb : len pw <= checked_length)
    by (unfold checked_length in *; lia).
  destruct (evaluate_integer_reading_aux up lo di pw Hne Hb) as [Ev Hs].
  assert (Hct : char_types up lo di pw = 4).
  { apply all_classes_present;
      [apply member_isupper | apply member_islower
      | apply member_isdigit | apply member_is_special]; auto. }
  assert (Hls : 30 <= fst (length_score (len pw)) /\
                (16 <= length -> fst (length_score (len pw)) = 40)).
  { unfold length_score.
    destruct (Z.leb_spec 16 (len pw)); [simpl; lia |].
    destruct (Z.leb_spec 12 (len pw)); simpl; lia. }
  assert (Hd : 0 <= 20 * unique_count pw / len pw).
  { pose proof (unique_count_bounds pw Hne). apply Z.div_pos; lia. }
  assert (Hscore : 70 <= integer_score up lo di pw /\
                   (16 <= length -> 80 <= integer_score up lo di pw)).
  { unfold integer_score. rewrite Hct. lia. }
  exists pw, g', (integer_score up lo di pw),
    (strength_of (integer_score up lo di pw)), (integer_feedback up lo di pw).
  split; [exact E |]. split; [exact Ev |].
  split; [lia |]. split; [tauto |].
  unfold strength_of.
  destruct (Z.leb_spec 90 (integer_score up lo di pw)); [now right |].
  destruct (Z.leb_spec 70 (integer_score up lo di pw)); [now left | lia].
Qed.

Lemma generate_password_rated_strong_witness :
  exists pw g' score label feedback,
    generate_password 16 true true true true sample_random = Ok (pw, g') /\
    evaluate_password_strength (fun _ => false) (fun _ => false)
      (fun _ => false) pw = Ok (score, label, feedback) /\
    70 <= score <= 100 /\
    (16 <= 16 -> 80 <= score) /\
    (label = "Strong"%string \/ label = "Very Strong"%string).
Proof.
  apply generate_password_rated_strong. vm_compute. discriminate.
Defined.

(** X9: a template that [is_valid_template] accepts and that holds no X
    names the four classes, so the password generated from it has at least
    12 characters and, for the evaluator, all four classes: 4 class points
    and no advice to add a class. *)
Theorem valid_template_without_X_has_all_classes :
  forall (up lo di : char -> bool) (g : Random) (template : str),
    is_valid_template template = true ->
    str_count (N_of_ascii "X") template = O ->
    exists pw g',
      generate_from_template template g = Ok (pw, g') /\
      12 <= len pw /\
      char_types up lo di pw = 4 /\
      class_feedback up lo di pw = [].
Proof.
  intros up lo di g template Hvalid HX.
  unfold is_valid_template in Hvalid. rewrite HX in Hvalid.
  destruct (Z.ltb_spec (len template) 12) as [| Hlen]; [discriminate |].
  unfold sum_bools in Hvalid. cbn [fold_left] in Hvalid.
  destruct (char_in (N_of_ascii "U") template) eqn:HU;
    destruct (char_in (N_of_ascii "L") template) eqn:HL;
    destruct (char_in (N_of_ascii "D") template) eqn:HD;
    destruct (char_in (N_of_ascii "S") template) eqn:HS;
    try discriminate Hvalid.
  apply char_in_In in HU, HL, HD, HS.
  destruct (returns_template_loop_positions template [] g)
    as (pw & g' & E & out & -> & Hout).
  exists out, g'. split; [exact E |].
  split; [unfold len in *; now rewrite <- (Forall2_length Hout) |].
  destruct (Forall2_in_left _ _ _ _ Hout HU) as (cu & Hcu & Pu).
  destruct (Forall2_in_left _ _ _ _ Hout HL) as (cl & Hcl & Pl).
  destruct (Forall2_in_left _ _ _ _ Hout HD) as (cd & Hcd & Pd).
  destruct (Forall2_in_left _ _ _ _ Hout HS) as (cs & Hcs & Ps).
  destruct Pu as (Pu & _), Pl as (_ & Pl & _), Pd as (_ & _ & Pd & _),
    Ps as (_ & _ & _ & Ps & _).
  apply all_classes_present;
    [apply member_isupper; exists cu | apply member_islower; exists cl
    | apply member_isdigit; exists cd | apply member_is_special; exists cs];
    auto.
Qed.

Lemma valid_template_without_X_has_all_classes_witness :
  exists pw g',
    generate_from_template (py "ULDS-ULDS-UL") sample_random = Ok (pw, g') /\
    12 <= len pw /\
    char_types (fun _ => false) (fun _ => false) (fun _ => false) pw = 4 /\
    class_feedback (fun _ => false) (fun _ => false) (fun _ => false) pw = [].
Proof.
  apply valid_template_without_X_has_all_classes; reflexivity.
Defined.

(** ** The animated reveal and the display *)

Lemma ebind_ok {A B} (m : Eff A) (k : A -> Eff B) g log a g' log' r :
  m g = (log, Ok (a, g')) -> k a g' = (log', r) ->
  ebind m k g = (log ++ log', r).
Proof. intros Hm Hk. unfold ebind. now rewrite Hm, Hk. Qed.

Lemma ebind_raise {A B} (m : Eff A) (k : A -> Eff B) g log e :
  m g = (log, Raise e) -> ebind m k g = (log, Raise e).
Proof. intros Hm. unfold ebind. now rewrite Hm. Qed.

Lemma snd_ebind_ok {A B} (m : Eff A) (k : A -> Eff B) g a g' :
  snd (m g) = Ok (a, g') -> snd (ebind m k g) = snd (k a g').
Proof.
  unfold ebind. destruct (m g) as [log r]. cbn [snd]. intros ->.
  now destruct (k a g').
Qed.

Lemma snd_ebind_raise {A B} (m : Eff A) (k : A -> Eff B) g e :
  snd (m g) = Raise e -> snd (ebind m k g) = Raise e.
Proof.
  unfold ebind. destruct (m g) as [log r]. cbn [snd]. now intros ->.
Qed.

Lemma completes_emit (e : event) : completes (emit e).
Proof. intros g. now exists [e]. Qed.

Lemma completes_eret : completes (eret tt).
Proof. intros g. now exists []. Qed.

Lemma completes_then (m k : Eff unit) :
  completes m -> completes k -> completes (m ;;; k).
Proof.
  intros Hm Hk g. destruct (Hm g) as (log & E), (Hk g) as (log' & E').
  exists (log ++ log'). eapply ebind_ok; eassumption.
Qed.

Lemma completes_only_encoding_errors (m : Eff unit) :
  completes m -> only_encoding_errors m.
Proof. intros Hm g. destruct (Hm g) as (log & E). left. now rewrite E. Qed.

Lemma only_encoding_errors_then (m k : Eff unit) :
  only_encoding_errors m -> only_encoding_errors k ->
  only_encoding_errors (m ;;; k).
Proof.
  intros Hm Hk g. destruct (Hm g) as [E | E].
  - rewrite (snd_ebind_ok _ _ _ _ _ E). apply Hk.
  - right. now apply snd_ebind_raise.
Qed.

Lemma frame_length (password : str) (k : nat) :
  (k <= List.length password)%nat ->
  List.length (frame password k) = List.length password.
Proof.
  intros Hk. unfold frame.
  rewrite length_app, repeat_length, length_firstn. lia.
Qed.

Lemma frame_zero (password : str) :
  map (fun _ => N_of_ascii "*") password = frame password 0.
Proof.
  unfold frame. rewrite Nat.sub_0_r. cbn [firstn app].
  induction password as [| c password IH]; cbn [map repeat List.length];
    [reflexivity | now f_equal].
Qed.

Lemma frame_full (password : str) :
  frame password (List.length password) = password.
Proof.
  unfold frame. rewrite firstn_all, Nat.sub_diag. apply app_nil_r.
Qed.

Lemma update_frame (password : str) (k : nat) (c : char) :
  nth_error password k = Some c ->
  update k c (frame password k) = frame password (S k).
Proof.
  revert k. induction password as [| c0 password IH]; intros [| k] Hk;
    simpl in Hk; try discriminate.
  - injection Hk as ->. unfold frame. simpl. now rewrite Nat.sub_0_r.
  - specialize (IH k Hk). unfold frame in *. simpl in *. now rewrite IH.
Qed.

Section TerminalFacts.

Variable enc : char -> bool.

Lemma encodable_app (a b : str) :
  encodable enc (a ++ b) = encodable enc a && encodable enc b.
Proof. apply forallb_app. Qed.

Lemma encodable_repeat (c : char) (k : nat) :
  stdout_encodes enc c = true -> encodable enc (repeat c k) = true.
Proof.
  intros Hc. induction k as [| k IH]; [reflexivity |].
  cbn [repeat encodable forallb]. rewrite Hc. exact IH.
Qed.

Lemma encodable_firstn (s : str) (k : nat) :
  encodable enc s = true -> encodable enc (firstn k s) = true.
Proof.
  intros H. rewrite <- (firstn_skipn k s), encodable_app in H.
  now apply andb_prop in H.
Qed.

Lemma encodable_frame_prefix (password : str) (k : nat) :
  encodable enc (frame password k) = encodable enc (firstn k password).
Proof.
  unfold frame. rewrite encodable_app, encodable_repeat by reflexivity.
  apply andb_true_r.
Qed.

Lemma encodable_prefix_succ (password : str) (k : nat) :
  encodable enc (firstn (S k) password) = false ->
  forall m, encodable enc (firstn (S k + m) password) = false.
Proof.
  intros H m. destruct (encodable enc (firstn (S k + m) password)) eqn:E;
    [| reflexivity].
  apply (encodable_firstn _ (S k)) in E.
  rewrite firstn_firstn in E.
  replace (Nat.min (S k) (S k + m)) with (S k) in E by lia. congruence.
Qed.

Lemma print_end_ok (t : text) (e : str) (g : Random) :
  text_encodable enc t = true -> encodable enc e = true ->
  print_end enc t e g = ([Print t e], Ok (tt, g)).
Proof. intros Ht He. unfold print_end. now rewrite Ht, He. Qed.

Lemma print_ok (t : text) (g : Random) :
  text_encodable enc t = true ->
  print enc t g = ([Print t newline], Ok (tt, g)).
Proof. intros Ht. apply print_end_ok; [exact Ht | reflexivity]. Qed.

Lemma print_end_raises (t : text) (e : str) (g : Random) :
  text_encodable enc t = false ->
  print_end enc t e g = ([], Raise UnicodeEncodeError).
Proof. intros Ht. unfold print_end. now rewrite Ht. Qed.

Lemma completes_print (t : text) :
  text_encodable enc t = true -> completes (print enc t).
Proof. intros Ht g. eexists. now apply print_ok. Qed.

Lemma completes_print_end (t : text) (e : str) :
  text_encodable enc t = true -> encodable enc e = true ->
  completes (print_end enc t e).
Proof. intros Ht He g. eexists. now apply print_end_ok. Qed.

Lemma only_encoding_errors_print (t : text) :
  only_encoding_errors (print enc t).
Proof.
  intros g. destruct (text_encodable enc t) eqn:Ht.
  - left. now rewrite print_ok.
  - right. unfold print. now rewrite print_end_raises.
Qed.

Lemma animate_loop_frames (password : str) (m k : nat) (g : Random) :
  encodable enc password = true ->
  (k + m <= List.length password)%nat ->
  animate_loop enc password (seq k m) (frame password k) g
  = (flat_map (reveal_events password) (seq k m),
     Ok (frame password (k + m), g)).
Proof.
  intros Henc. revert k. induction m as [| m IH]; intros k Hk;
    cbn [seq animate_loop flat_map].
  - unfold eret. now rewrite Nat.add_0_r.
  - destruct (nth_error password k) as [c |] eqn:Ec;
      [| apply nth_error_None in Ec; lia].
    assert (Hget : lift (getitem password k) g = ([], Ok (c, g))).
    { unfold lift, getitem. now rewrite Ec. }
    assert (Hset : lift (setitem (frame password k) k c) g
                   = ([], Ok (frame password (S k), g))).
    { unfold lift, setitem. rewrite frame_length by lia.
      destruct (Nat.ltb_spec k (List.length password)); [| lia].
      unfold ret. now rewrite update_frame. }
    assert (Hprint :
      print_end enc [Fore MAGENTA; Style BRIGHT; Text (frame password (S k))]
        carriage_return g
      = ([Print [Fore MAGENTA; Style BRIGHT; Text (frame password (S k))]
                carriage_return], Ok (tt, g))).
    { apply print_end_ok; [| reflexivity].
      cbn [text_encodable forallb piece_encodable].
      rewrite encodable_frame_prefix, encodable_firstn by exact Henc.
      reflexivity. }
    erewrite ebind_ok; [| exact Hget |].
    2:{ erewrite ebind_ok; [| exact Hset |].
        2:{ erewrite ebind_ok; [| exact Hprint |].
            2:{ erewrite ebind_ok; [| reflexivity |].
                2:{ apply IH. lia. }
                reflexivity. }
            reflexivity. }
        reflexivity. }
    cbn [app]. unfold reveal_events at 1. cbn [app].
    now rewrite Nat.add_succ_r.
Qed.

Lemma animate_loop_outcome (password : str) (m k : nat) (g : Random) :
  (k + m <= List.length password)%nat ->
  snd (animate_loop enc password (seq k m) (frame password k) g)
  = if Nat.eqb m 0 || encodable enc (firstn (k + m) password)
    then Ok (frame password (k + m), g)
    else Raise UnicodeEncodeError.
Proof.
  revert k. induction m as [| m IH]; intros k Hk; cbn [seq animate_loop].
  - cbn [Nat.eqb orb eret snd]. now rewrite Nat.add_0_r.
  - cbn [Nat.eqb orb]. replace (k + S m)%nat with (S k + m)%nat by lia.
    destruct (nth_error password k) as [c |] eqn:Ec;
      [| apply nth_error_None in Ec; lia].
    assert (Hget : snd (lift (getitem password k) g) = Ok (c, g)).
    { unfold lift, getitem. now rewrite Ec. }
    assert (Hset : snd (lift (setitem (frame password k) k c) g)
                   = Ok (frame password (S k), g)).
    { unfold lift, setitem. rewrite frame_length by lia.
      destruct (Nat.ltb_spec k (List.length password)); [| lia].
      unfold ret. cbn [snd]. now rewrite update_frame. }
    rewrite (snd_ebind_ok _ _ _ _ _ Hget), (snd_ebind_ok _ _ _ _ _ Hset).
    destruct (encodable enc (firstn (S k) password)) eqn:Hpre.
    + assert (Hprint : snd (print_end enc
                [Fore MAGENTA; Style BRIGHT; Text (frame password (S k))]
                carriage_return g) = Ok (tt, g)).
      { rewrite print_end_ok; [reflexivity | | reflexivity].
        cbn [text_encodable forallb piece_encodable].
        now rewrite encodable_frame_prefix, Hpre. }
      rewrite (snd_ebind_ok _ _ _ _ _ Hprint).
      rewrite (snd_ebind_ok _ _ g tt g) by reflexivity.
      rewrite IH by lia.
      destruct m as [| m]; [| reflexivity].
      cbn [Nat.eqb orb]. rewrite Nat.add_0_r, Hpre. reflexivity.
    + rewrite (encodable_prefix_succ _ _ Hpre m).
      apply snd_ebind_raise. rewrite print_end_raises; [reflexivity |].
      cbn [text_encodable forallb piece_encodable].
      now rewrite encodable_frame_prefix, Hpre.
Qed.

Lemma animate_password_log (password : str) (g : Random) :
  encodable enc password = true ->
  animate_password enc password g
  = ([Print [Fore GREEN; Style BRIGHT; Text (py "Generated Password:")] newline;
      Print [Fore CYAN; Text (frame password 0)] carriage_return;
      Sleep 500]
     ++ flat_map (reveal_events password) (range (List.length password))
     ++ [Print [Fore MAGENTA; Style BRIGHT;
                Text (password ++ repeat (N_of_ascii " ") 10)] newline],
     Ok (tt, g)).
Proof.
  intros Henc. unfold animate_password, range.
  rewrite frame_zero.
  assert (Hstars : text_encodable enc [Fore CYAN; Text (frame password 0)] = true).
  { cbn [text_encodable forallb piece_encodable].
    now rewrite encodable_frame_prefix. }
  assert (Hlast : text_encodable enc
            [Fore MAGENTA; Style BRIGHT;
             Text (password ++ repeat (N_of_ascii " ") 10)] = true).
  { cbn [text_encodable forallb piece_encodable].
    now rewrite encodable_app, Henc. }
  erewrite ebind_ok; [| apply print_ok; reflexivity |].
  2:{ erewrite ebind_ok; [| apply print_end_ok; [exact Hstars | reflexivity] |].
      2:{ erewrite ebind_ok; [| reflexivity |].
          2:{ erewrite ebind_ok; [| apply animate_loop_frames; [exact Henc | lia] |].
              2:{ apply print_ok, Hlast. }
              reflexivity. }
          reflexivity. }
      reflexivity. }
  reflexivity.
Qed.

Lemma animate_password_outcome (password : str) (g : Random) :
  snd (animate_password enc password g)
  = if encodable enc password then Ok (tt, g) else Raise UnicodeEncodeError.
Proof.
  destruct (encodable enc password) eqn:Henc.
  - now rewrite animate_password_log.
  - unfold animate_password, range. rewrite frame_zero.
    rewrite (snd_ebind_ok _ _ g tt g)
      by (rewrite print_ok; reflexivity).
    rewrite (snd_ebind_ok _ _ g tt g).
    2:{ rewrite print_end_ok; [reflexivity | | reflexivity].
        cbn [text_encodable forallb piece_encodable].
        now rewrite encodable_frame_prefix. }
    rewrite (snd_ebind_ok _ _ g tt g) by reflexivity.
    pose proof (animate_loop_outcome password (List.length password) 0 g
                  (le_n _)) as Hloop.
    cbn [Nat.add] in Hloop. rewrite firstn_all, Henc in Hloop.
    destruct (Nat.eqb (List.length password) 0) eqn:Hn.
    + apply Nat.eqb_eq in Hn. apply length_zero_iff_nil in Hn.
      subst password. discriminate Henc.
    + cbn [orb] in Hloop. now apply snd_ebind_raise.
Qed.

(** X10: when [sys.stdout] can encode the password, [animate_password]
    raises nothing, even for the empty password: after the header it
    prints the password's length in stars, then one frame per character,
    frame [k] showing the first [k] characters and stars after, and finally
    the password followed by 10 spaces.  When [sys.stdout] cannot encode a
    character of the password, [animate_password] raises
    [UnicodeEncodeError].  Every frame has the password's length and the
    last one is the password. *)
Theorem animate_password_frames :
  forall (g : Random) (password : str),
    (encodable enc password = true ->
     animate_password enc password g
     = ([Print [Fore GREEN; Style BRIGHT; Text (py "Generated Password:")]
               newline;
         Print [Fore CYAN;
                Text (repeat (N_of_ascii "*") (List.length password))]
               carriage_return;
         Sleep 500]
        ++ flat_map (reveal_events password) (range (List.length password))
        ++ [Print [Fore MAGENTA; Style BRIGHT;
                   Text (password ++ repeat (N_of_ascii " ") 10)] newline],
        Ok (tt, g))) /\
    (encodable enc password = false ->
     snd (animate_password enc password g) = Raise UnicodeEncodeError) /\
    (forall k, (k <= List.length password)%nat ->
               List.length (frame password k) = List.length password) /\
    frame password (List.length password) = password.
Proof.
  intros g password. split; [| split; [| split]].
  - intros Henc. rewrite animate_password_log by exact Henc.
    unfold frame at 1. now rewrite Nat.sub_0_r.
  - intros Henc. now rewrite animate_password_outcome, Henc.
  - intros k. apply frame_length.
  - apply frame_full.
Qed.

Lemma py_cons (a : ascii) (s : string) :
  py (String a s) = N_of_ascii a :: py s.
Proof. reflexivity. Qed.

Lemma encodable_string_of_uint (d : Decimal.uint) :
  encodable enc (py (NilEmpty.string_of_uint d)) = true.
Proof.
  induction d; cbn [NilEmpty.string_of_uint]; [reflexivity | ..];
    rewrite py_cons; cbn [encodable forallb]; exact IHd.
Qed.

Lemma encodable_str_of_int (n : Z) : encodable enc (str_of_int n) = true.
Proof.
  unfold str_of_int, NilZero.string_of_int, NilZero.string_of_uint.
  destruct (Z.to_int n) as [d | d]; destruct d; try reflexivity;
    try apply encodable_string_of_uint;
    rewrite py_cons; cbn [encodable forallb];
    try reflexivity; apply encodable_string_of_uint.
Qed.

Lemma encodable_strength_of (score : Z) :
  encodable enc (py (strength_of score)) = true.
Proof.
  unfold strength_of.
  destruct (90 <=? score), (70 <=? score), (50 <=? score), (30 <=? score);
    reflexivity.
Qed.

Lemma strength_line_encodable (c : colour) (score : Z) :
  text_encodable enc
    [Fore c;
     Text (py "Strength: " ++ py (strength_of score) ++ py " ("
           ++ str_of_int score ++ py "/100)")] = true.
Proof.
  cbn [text_encodable forallb piece_encodable].
  rewrite !encodable_app, encodable_strength_of, encodable_str_of_int.
  reflexivity.
Qed.

Lemma feedback_line_encodable (item : string) :
  stdout_encodes enc 8226%N = true -> encodable enc (py item) = true ->
  text_encodable enc
    [Fore YELLOW; Text (py " " ++ [8226%N] ++ py " " ++ py item)] = true.
Proof.
  intros Hbullet Hitem. cbn [text_encodable forallb piece_encodable].
  rewrite !encodable_app, Hitem. cbn [encodable forallb].
  rewrite Hbullet. reflexivity.
Qed.

Lemma print_feedback_log (feedback : list string) (g : Random) :
  stdout_encodes enc 8226%N = true ->
  Forall (fun item => encodable enc (py item) = true) feedback ->
  print_feedback enc feedback g = (map feedback_line feedback, Ok (tt, g)).
Proof.
  intros Hbullet Hitems.
  induction Hitems as [| item rest Hitem _ IH]; cbn [print_feedback map].
  - reflexivity.
  - erewrite ebind_ok; [| apply print_ok, feedback_line_encodable | exact IH];
      [reflexivity | exact Hbullet | exact Hitem].
Qed.

Lemma only_encoding_errors_print_feedback (feedback : list string) :
  only_encoding_errors (print_feedback enc feedback).
Proof.
  induction feedback as [| item rest IH]; cbn [print_feedback].
  - apply completes_only_encoding_errors, completes_eret.
  - apply only_encoding_errors_then;
      [apply only_encoding_errors_print | exact IH].
Qed.

Section DisplayFacts.

Variables up lo di : char -> bool.
Variable clip : str -> result unit.

Lemma integer_feedback_ascii (password : str) :
  Forall (fun item => encodable enc (py item) = true)
         (integer_feedback up lo di password).
Proof.
  unfold integer_feedback, length_score, class_feedback.
  destruct (16 <=? len password), (12 <=? len password),
    (existsb (isupper up) password), (existsb (islower lo) password),
    (existsb (isdigit di) password), (existsb is_special password),
    (2 * unique_count password <? len password);
    cbn [negb app fst snd]; repeat constructor.
Qed.

Lemma completes_show_password password animate :
  encodable enc password = true ->
  completes (show_password enc password animate).
Proof.
  intros Henc. unfold show_password. destruct animate.
  - intros g. eexists. now apply animate_password_log.
  - apply completes_then; apply completes_print; [reflexivity |].
    cbn [text_encodable forallb piece_encodable]. now rewrite Henc.
Qed.

Lemma show_password_raises password animate (g : Random) :
  encodable enc password = false ->
  snd (show_password enc password animate g) = Raise UnicodeEncodeError.
Proof.
  intros Henc. unfold show_password. destruct animate.
  - now rewrite animate_password_outcome, Henc.
  - rewrite (snd_ebind_ok _ _ g tt g) by (rewrite print_ok; reflexivity).
    unfold print. rewrite print_end_raises; [reflexivity |].
    cbn [text_encodable forallb piece_encodable]. now rewrite Henc.
Qed.

Lemma completes_copy_password password copy :
  completes (copy_password enc clip password copy).
Proof.
  unfold copy_password. destruct copy; [| apply completes_eret].
  intros g. unfold ecatch.
  assert (Hfail : print enc
            [Fore YELLOW; Text (py "! Could not copy password to clipboard")] g
          = ([Print [Fore YELLOW;
                     Text (py "! Could not copy password to clipboard")]
                    newline], Ok (tt, g)))
    by (apply print_ok; reflexivity).
  destruct ((lift_result (clip password) ;;;
             emit (ClipboardCopy password) ;;;
             print enc
               [Fore YELLOW;
                Text ([10003%N] ++ py " Password copied to clipboard! ");
                Fore GREEN; Text (py "[Ready to paste]")]) g)
    as [log [[[] g'] | e]] eqn:E.
  - assert (g' = g) as ->.
    { revert E. unfold ebind, lift_result, rbind, emit, print, print_end.
      destruct (clip password) as [[] | e]; [| discriminate].
      destruct (text_encodable enc _); cbn; [| discriminate].
      now intros [= _ ->]. }
    now exists log.
  - rewrite Hfail. eexists. reflexivity.
Qed.

Lemma display_password_without_strength password copy animate (g : Random) :
  encodable enc password = true ->
  exists log,
    display_password enc up lo di clip password false copy animate g
    = (log, Ok (tt, g)).
Proof.
  intros Henc.
  change (display_password enc up lo di clip password false copy animate)
    with (show_password enc password animate ;;; eret tt ;;;
          copy_password enc clip password copy).
  apply completes_then; [now apply completes_show_password |].
  apply completes_then; [apply completes_eret | apply completes_copy_password].
Qed.

Lemma display_password_unencodable password show copy animate (g : Random) :
  encodable enc password = false ->
  snd (display_password enc up lo di clip password show copy animate g)
  = Raise UnicodeEncodeError.
Proof.
  intros Henc. unfold display_password.
  apply snd_ebind_raise.
  now apply (show_password_raises password animate g).
Qed.

(** The part of [display_password] that follows the evaluation
    (lines 155-161). *)
Lemma strength_part_only_encoding_errors
  (score : Z) (strength : string) (feedback : list string) :
  only_encoding_errors
    (print enc
       [Fore (strength_color score);
        Text (py "Strength: " ++ py strength ++ py " ("
              ++ str_of_int score ++ py "/100)")] ;;;
     (if is_empty feedback then eret tt
      else
        print enc [Fore YELLOW; Text (py "Feedback:")] ;;;
        print_feedback enc feedback)).
Proof.
  apply only_encoding_errors_then; [apply only_encoding_errors_print |].
  destruct (is_empty feedback).
  - apply completes_only_encoding_errors, completes_eret.
  - apply only_encoding_errors_then;
      [apply only_encoding_errors_print
      | apply only_encoding_errors_print_feedback].
Qed.

Lemma display_password_outcome password copy animate (g : Random) :
  encodable enc password = true ->
  match evaluate_password_strength up lo di password with
  | Ok _ =>
      snd (display_password enc up lo di clip password true copy animate g)
      = Ok (tt, g) \/
      snd (display_password enc up lo di clip password true copy animate g)
      = Raise UnicodeEncodeError
  | Raise e =>
      snd (display_password enc up lo di clip password true copy animate g)
      = Raise e
  end.
Proof.
  intros Henc.
  destruct (completes_show_password password animate Henc g) as (before & Eb).
  change (display_password enc up lo di clip password true copy animate)
    with (show_password enc password animate ;;;
          (evaluation <-- lift_result
             (evaluate_password_strength up lo di password) ;;
           let '(score, strength, feedback) := evaluation in
           print enc
             [Fore (strength_color score);
              Text (py "Strength: " ++ py strength ++ py " ("
                    ++ str_of_int score ++ py "/100)")] ;;;
           (if is_empty feedback then eret tt
            else
              print enc [Fore YELLOW; Text (py "Feedback:")] ;;;
              print_feedback enc feedback)) ;;;
          copy_password enc clip password copy).
  rewrite (snd_ebind_ok _ _ g tt g) by now rewrite Eb.
  destruct (evaluate_password_strength up lo di password)
    as [[[score strength] feedback] | e].
  - assert (Htail : only_encoding_errors
      ((evaluation <-- lift_result (Ok (score, strength, feedback)) ;;
        let '(score, strength, feedback) := evaluation in
        print enc
          [Fore (strength_color score);
           Text (py "Strength: " ++ py strength ++ py " ("
                 ++ str_of_int score ++ py "/100)")] ;;;
        (if is_empty feedback then eret tt
         else
           print enc [Fore YELLOW; Text (py "Feedback:")] ;;;
           print_feedback enc feedback)) ;;;
       copy_password enc clip password copy)).
    { apply only_encoding_errors_then;
        [| apply completes_only_encoding_errors, completes_copy_password].
      intros g0.
      rewrite (snd_ebind_ok _ _ g0 (score, strength, feedback) g0)
        by reflexivity.
      apply strength_part_only_encoding_errors. }
    apply Htail.
  - apply snd_ebind_raise. apply snd_ebind_raise. reflexivity.
Qed.

Lemma display_password_with_strength password copy animate (g : Random) :
  encodable enc password = true ->
  stdout_encodes enc 8226%N = true ->
  password <> [] -> len password <= checked_length ->
  exists before after,
    display_password enc up lo di clip password true copy animate g
    = (before
       ++ (strength_line (strength_color (integer_score up lo di password))
             (strength_of (integer_score up lo di password))
             (integer_score up lo di password)
           :: Print [Fore YELLOW; Text (py "Feedback:")] newline
           :: map feedback_line (integer_feedback up lo di password))
       ++ after,
       Ok (tt, g)).
Proof.
  intros Henc Hbullet Hne Hlen.
  destruct (completes_show_password password animate Henc g) as (before & Eb).
  destruct (completes_copy_password password copy g) as (after & Ea).
  destruct (evaluate_integer_reading_aux up lo di password Hne Hlen)
    as [Ev _].
  exists before, after.
  change (display_password enc up lo di clip password true copy animate)
    with (show_password enc password animate ;;;
          (evaluation <-- lift_result
             (evaluate_password_strength up lo di password) ;;
           let '(score, strength, feedback) := evaluation in
           print enc
             [Fore (strength_color score);
              Text (py "Strength: " ++ py strength ++ py " ("
                    ++ str_of_int score ++ py "/100)")] ;;;
           (if is_empty feedback then eret tt
            else
              print enc [Fore YELLOW; Text (py "Feedback:")] ;;;
              print_feedback enc feedback)) ;;;
          copy_password enc clip password copy).
  rewrite Ev.
  erewrite ebind_ok; [reflexivity | exact Eb |].
  erewrite ebind_ok; [reflexivity | | exact Ea].
  erewrite ebind_ok; [| reflexivity |].
  2:{ cbv beta iota.
      erewrite ebind_ok; [| apply print_ok, strength_line_encodable |].
      2:{ cbn [integer_feedback app is_empty].
          erewrite ebind_ok; [| apply print_ok; reflexivity |].
          2:{ apply print_feedback_log;
                [exact Hbullet | apply integer_feedback_ascii]. }
          reflexivity. }
      reflexivity. }
  reflexivity.
Qed.

End DisplayFacts.

End TerminalFacts.

Lemma animate_password_frames_witness :
  snd (animate_password utf_8 [55296%N] sample_random)
  = Raise UnicodeEncodeError /\
  frame (py "abc") 3 = py "abc".
Proof.
  destruct (animate_password_frames utf_8 sample_random [55296%N])
    as (_ & Hraise & _).
  destruct (animate_password_frames utf_8 sample_random (py "abc"))
    as (_ & _ & _ & Hfull).
  split; [apply Hraise; reflexivity | exact Hfull].
Defined.

Lemma strength_color_label (score : Z) :
  (strength_color score = GREEN <->
   strength_of score = "Strong"%string \/
   strength_of score = "Very Strong"%string) /\
  (strength_color score = YELLOW <-> strength_of score = "Moderate"%string) /\
  (strength_color score = RED <->
   strength_of score = "Weak"%string \/
   strength_of score = "Very Weak"%string).
Proof.
  unfold strength_color, strength_of.
  destruct (Z.leb_spec 90 score), (Z.leb_spec 70 score),
    (Z.leb_spec 50 score), (Z.leb_spec 30 score); try lia;
    repeat split; intros Hx; try discriminate Hx; auto;
    destruct Hx as [Hx | Hx]; discriminate Hx.
Qed.

(** X11: when [sys.stdout] can encode the password, [display_password]
    without the strength evaluation returns, whether it animates or not
    and whether the clipboard works or not; when it cannot, every call of
    [display_password] raises [UnicodeEncodeError].  With the strength
    evaluation [display_password] raises [ZeroDivisionError] exactly when
    the password is empty. *)
Theorem display_password_raises_only_on_empty :
  forall (enc up lo di : char -> bool) (clip : str -> result unit)
         (password : str) (copy animate : bool) (g : Random),
    (encodable enc password = true ->
     exists log,
       display_password enc up lo di clip password false copy animate g
       = (log, Ok (tt, g))) /\
    (encodable enc password = false ->
     forall show : bool,
       snd (display_password enc up lo di clip password show copy animate g)
       = Raise UnicodeEncodeError) /\
    (snd (display_password enc up lo di clip password true copy animate g)
     = Raise ZeroDivisionError <-> password = []).
Proof.
  intros enc up lo di clip password copy animate g.
  split; [apply display_password_without_strength |].
  split.
  { intros Henc show. now apply display_password_unencodable. }
  pose proof (evaluate_zero_division_aux up lo di password) as Hzero.
  destruct (encodable enc password) eqn:Henc.
  - pose proof (display_password_outcome enc up lo di clip password
                  copy animate g Henc) as Hout.
    destruct (evaluate_password_strength up lo di password) as [r | e].
    + split.
      * intros H. destruct Hout as [E | E]; rewrite E in H; discriminate H.
      * intros Hnil. apply Hzero in Hnil. discriminate Hnil.
    + rewrite Hout. split.
      * intros [= ->]. now apply Hzero.
      * intros Hnil. apply Hzero in Hnil. now injection Hnil as ->.
  - rewrite (display_password_unencodable enc up lo di clip password
               true copy animate g Henc).
    split; [discriminate |]. intros ->. discriminate Henc.
Qed.

Lemma display_password_raises_only_on_empty_witness :
  (exists log,
     display_password utf_8 (fun _ => false) (fun _ => false)
       (fun _ => false) (fun _ => Raise ValueError) (py "hunter2")
       false true true sample_random
     = (log, Ok (tt, sample_random))) /\
  snd (display_password utf_8 (fun _ => false) (fun _ => false)
         (fun _ => false) (fun _ => Ok tt) [55296%N]
         false true false sample_random)
  = Raise UnicodeEncodeError.
Proof.
  split.
  - apply display_password_raises_only_on_empty. reflexivity.
  - apply (proj1 (proj2 (display_password_raises_only_on_empty
             utf_8 (fun _ => false) (fun _ => false) (fun _ => false)
             (fun _ => Ok tt) [55296%N] true false sample_random))).
    reflexivity.
Defined.

(** X12: for a non-empty password of at most 128 characters that
    [sys.stdout] can encode, as it can the bullet of the feedback lines,
    [display_password] with the strength evaluation returns; it prints the
    strength line with the evaluator's label and score, in green exactly for
    Strong and Very Strong, in yellow exactly for Moderate and in red
    exactly for Weak and Very Weak, then the feedback header and one line
    per advice. *)
Theorem display_password_strength_lines :
  forall (enc up lo di : char -> bool) (clip : str -> result unit)
         (password : str) (copy animate : bool) (g : Random),
    password <> [] -> len password <= checked_length ->
    encodable enc password = true -> stdout_encodes enc 8226%N = true ->
    let score := integer_score up lo di password in
    let label := strength_of score in
    (exists before after,
       display_password enc up lo di clip password true copy animate g
       = (before
          ++ (strength_line (strength_color score) label score
              :: Print [Fore YELLOW; Text (py "Feedback:")] newline
              :: map feedback_line (integer_feedback up lo di password))
          ++ after,
          Ok (tt, g))) /\
    (strength_color score = GREEN <->
     label = "Strong"%string \/ label = "Very Strong"%string) /\
    (strength_color score = YELLOW <-> label = "Moderate"%string) /\
    (strength_color score = RED <->
     label = "Weak"%string \/ label = "Very Weak"%string).
Proof.
  intros enc up lo di clip password copy animate g Hne Hlen Henc Hbullet
    score label.
  split; [| apply strength_color_label].
  now apply display_password_with_strength.
Qed.

Lemma display_password_strength_lines_witness :
  exists before after,
    display_password utf_8 (fun _ => false) (fun _ => false)
      (fun _ => false) (fun _ => Raise ValueError) (py "correct horse")
      true true false sample_random
    = (before
       ++ (strength_line YELLOW "Moderate" 52
           :: Print [Fore YELLOW; Text (py "Feedback:")] newline
           :: map feedback_line
                ["Acceptable length"; "Add uppercase letters"; "Add numbers";
                 "Add special characters"]%string)
       ++ after,
       Ok (tt, sample_random)).
Proof.
  refine (proj1 (display_password_strength_lines
                   utf_8 (fun _ => false) (fun _ => false) (fun _ => false)
                   (fun _ => Raise ValueError) (py "correct horse")
                   true false sample_random _ _ _ _)).
  - discriminate.
  - vm_compute. discriminate.
  - reflexivity.
  - reflexivity.
Defined.

(** ** The matrix effect *)

Lemma eff_returns_eret {A} (a : A) (Q : A -> Prop) :
  Q a -> eff_returns (eret a) Q.
Proof. intros H g. exists [], a, g. now split. Qed.

Lemma eff_returns_bind {A B} (m : Eff A) (k : A -> Eff B)
  (P : A -> Prop) (Q : B -> Prop) :
  eff_returns m P -> (forall a, P a -> eff_returns (k a) Q) ->
  eff_returns (ebind m k) Q.
Proof.
  intros Hm Hk g.
  destruct (Hm g) as (log & a & g1 & E & Pa).
  destruct (Hk a Pa g1) as (log' & b & g2 & E' & Qb).
  exists (log ++ log'), b, g2. split; [| exact Qb].
  eapply ebind_ok; eassumption.
Qed.

Lemma eff_returns_weaken {A} (m : Eff A) (P Q : A -> Prop) :
  eff_returns m P -> (forall a, P a -> Q a) -> eff_returns m Q.
Proof.
  intros Hm HPQ g. destruct (Hm g) as (log & a & g1 & E & Pa).
  exists log, a, g1. split; [exact E | apply HPQ, Pa].
Qed.

Lemma eff_returns_lift {A} (m : M A) (Q : A -> Prop) :
  returns m Q -> eff_returns (lift m) Q.
Proof.
  intros Hm g. destruct (Hm g) as (a & g1 & E & Qa).
  exists [], a, g1. split; [| exact Qa]. unfold lift. now rewrite E.
Qed.

Lemma eff_returns_completes (m : Eff unit) :
  completes m -> eff_returns m (fun _ => True).
Proof.
  intros Hm g. destruct (Hm g) as (log & E). exists log, tt, g. now split.
Qed.

Lemma returns_random_random : returns random_random (fun _ => True).
Proof. intros g. unfold random_random. eexists _, _. now split. Qed.

Lemma position_in_range (n : nat) (i : Z) :
  0 <= i < Z.of_nat n -> position n i = Some (Z.to_nat i).
Proof.
  intros Hi. unfold position.
  destruct (Z.ltb_spec i 0); [lia |].
  destruct (Z.leb_spec 0 i); [| lia].
  destruct (Z.ltb_spec i (Z.of_nat n)); [reflexivity | lia].
Qed.

Lemma Forall_update {A} (P : A -> Prop) (i : nat) (a : A) (s : list A) :
  Forall P s -> P a -> Forall P (update i a s).
Proof.
  intros Hs Ha. revert i. induction Hs as [| b s Hb Hs IH]; intros [| i];
    simpl; constructor; auto.
Qed.

Lemma returns_set_cell (matrix : list (list cell)) (i j : Z)
  (v : cell) (row : list cell) :
  0 <= i < len matrix ->
  nth_error matrix (Z.to_nat i) = Some row ->
  0 <= j < len row ->
  returns (set_cell matrix i j v)
    (fun m => m = update (Z.to_nat i) (update (Z.to_nat j) v row) matrix).
Proof.
  intros Hi Hrow Hj. unfold set_cell, getitem_int, setitem_int, len in *.
  rewrite (position_in_range _ i Hi).
  eapply returns_bind; [apply returns_getitem; lia |].
  intros row' Hrow'. rewrite Hrow in Hrow'. injection Hrow' as <-.
  rewrite (position_in_range _ j Hj).
  eapply returns_bind; [apply returns_setitem; lia |].
  intros row1 ->. apply returns_setitem. lia.
Qed.

Lemma range_below (n : nat) : Forall (fun j => (j < n)%nat) (range n).
Proof. apply Forall_forall. intros j Hj. apply in_seq in Hj. lia. Qed.

Lemma update_app_right {A} (a b : list A) (k : nat) (v : A) :
  update (List.length a + k) v (a ++ b) = a ++ update k v b.
Proof. induction a as [| x a IH]; simpl; [reflexivity | now rewrite IH]. Qed.

Lemma update_middle {A} (left mid rest : list A) (x v : A) :
  update (List.length left + List.length mid) v (left ++ mid ++ x :: rest)
  = left ++ mid ++ v :: rest.
Proof.
  rewrite update_app_right. f_equal.
  rewrite <- (Nat.add_0_r (List.length mid)), update_app_right. reflexivity.
Qed.

Lemma firstn_succ_nth (pw : str) (i : nat) (c : char) :
  nth_error pw i = Some c -> firstn (S i) pw = firstn i pw ++ [c].
Proof.
  revert i. induction pw as [| d pw IH]; intros [| i] H; simpl in *;
    try discriminate.
  - now injection H as ->.
  - now rewrite (IH i H).
Qed.

Section MatrixFacts.

Variable enc : char -> bool.

Lemma text_encodable_app (a b : text) :
  text_encodable enc (a ++ b) = text_encodable enc a && text_encodable enc b.
Proof. apply forallb_app. Qed.

Lemma text_encodable_join (line : list cell) :
  Forall (fun c : cell => text_encodable enc c = true) line ->
  text_encodable enc (join line) = true.
Proof.
  unfold join. induction 1 as [| c line Hc _ IH]; [reflexivity |].
  cbn [List.concat]. now rewrite text_encodable_app, Hc, IH.
Qed.

Lemma rows_of_width_row (width : nat) (matrix : list (list cell))
  (i : nat) (row : list cell) :
  rows_of_width enc width matrix -> nth_error matrix i = Some row ->
  List.length row = width /\
  Forall (fun c : cell => text_encodable enc c = true) row.
Proof.
  intros Hshape Hrow. unfold rows_of_width in Hshape.
  eapply Forall_forall in Hshape; [exact Hshape |].
  eapply nth_error_In, Hrow.
Qed.

Lemma noise_alphabet_encodable (c : char) :
  In c noise_alphabet -> text_encodable enc [Text [c]] = true.
Proof.
  intros Hc. cbn [text_encodable forallb piece_encodable encodable].
  rewrite !andb_true_r. unfold stdout_encodes.
  assert (H : forallb (fun d => N.ltb d 128) noise_alphabet = true)
    by (vm_compute; reflexivity).
  rewrite forallb_forall in H. now rewrite (H c Hc).
Qed.

Lemma glyph_encodable (password : str) (i : nat) (c : char) :
  encodable enc password = true -> nth_error password i = Some c ->
  text_encodable enc (glyph c) = true.
Proof.
  intros Henc Hc. unfold encodable in Henc. rewrite forallb_forall in Henc.
  cbn [glyph text_encodable forallb piece_encodable encodable].
  rewrite (Henc c (nth_error_In _ _ Hc)). reflexivity.
Qed.

Lemma print_matrix_log (prefix : text) (width : nat)
  (matrix : list (list cell)) (g : Random) :
  text_encodable enc prefix = true -> rows_of_width enc width matrix ->
  print_matrix enc prefix matrix g
  = (map (fun line => Print (prefix ++ join line) newline) matrix, Ok (tt, g)).
Proof.
  intros Hprefix Hshape.
  induction Hshape as [| line rest [_ Hline] _ IH]; cbn [print_matrix map].
  - reflexivity.
  - erewrite ebind_ok; [| | exact IH].
    2:{ apply print_ok.
        now rewrite text_encodable_app, Hprefix, text_encodable_join. }
    reflexivity.
Qed.

Lemma completes_print_matrix (prefix : text) (width : nat)
  (matrix : list (list cell)) :
  text_encodable enc prefix = true -> rows_of_width enc width matrix ->
  completes (print_matrix enc prefix matrix).
Proof. intros Hp Hm g. eexists. eapply print_matrix_log; eassumption. Qed.

Lemma completes_cursor_up (lines : Z) : completes (cursor_up enc lines).
Proof.
  apply completes_print_end; [| reflexivity].
  cbn [text_encodable forallb piece_encodable]. rewrite andb_true_r.
  rewrite !encodable_app, encodable_str_of_int. reflexivity.
Qed.

Lemma set_cell_keeps_shape (width : nat) (matrix : list (list cell))
  (i j : Z) (v : cell) :
  rows_of_width enc width matrix -> text_encodable enc v = true ->
  0 <= i < len matrix -> 0 <= j < Z.of_nat width ->
  returns (set_cell matrix i j v)
    (fun m => List.length m = List.length matrix /\ rows_of_width enc width m).
Proof.
  intros Hshape Hv Hi Hj.
  destruct (nth_error matrix (Z.to_nat i)) as [row |] eqn:Hrow.
  2:{ apply nth_error_None in Hrow. unfold len in Hi. lia. }
  destruct (rows_of_width_row _ _ _ _ Hshape Hrow) as [Hlen Hcells].
  eapply returns_weaken.
  - eapply returns_set_cell; [exact Hi | exact Hrow |].
    unfold len. lia.
  - intros m ->. split; [apply length_update |].
    apply Forall_update; [exact Hshape |]. split.
    + now rewrite length_update.
    + now apply Forall_update.
Qed.

Lemma noise_columns_shape (width : nat) (i : nat) (js : list nat)
  (matrix : list (list cell)) :
  rows_of_width enc width matrix -> (i < List.length matrix)%nat ->
  Forall (fun j => (j < width)%nat) js ->
  eff_returns (noise_columns i js matrix)
    (fun m => List.length m = List.length matrix /\ rows_of_width enc width m).
Proof.
  intros Hshape Hi Hjs. revert matrix Hshape Hi.
  induction Hjs as [| j js Hj _ IH]; intros matrix Hshape Hi;
    cbn [noise_columns].
  - apply eff_returns_eret. now split.
  - eapply eff_returns_bind;
      [apply eff_returns_lift, returns_random_random |].
    intros x _.
    eapply eff_returns_bind
      with (P := fun m => List.length m = List.length matrix
                          /\ rows_of_width enc width m).
    + destruct (above_0_8 x); [| apply eff_returns_eret; now split].
      eapply eff_returns_bind.
      { apply eff_returns_lift, returns_choice. discriminate. }
      intros c Hc. apply eff_returns_lift.
      apply set_cell_keeps_shape;
        [exact Hshape | apply noise_alphabet_encodable, Hc
        | unfold len; lia | lia].
    + intros m [Hlen Hm]. eapply eff_returns_weaken.
      * apply IH; [exact Hm | lia].
      * intros m' [Hlen' Hm']. split; [lia | exact Hm'].
Qed.

Lemma noise_rows_shape (width : nat) (rows : list nat)
  (matrix : list (list cell)) :
  rows_of_width enc width matrix ->
  Forall (fun i => (i < List.length matrix)%nat) rows ->
  eff_returns (noise_rows rows (Z.of_nat width) matrix)
    (fun m => List.length m = List.length matrix /\ rows_of_width enc width m).
Proof.
  intros Hshape Hrows. revert matrix Hshape Hrows.
  induction rows as [| i rows IH]; intros matrix Hshape Hrows;
    cbn [noise_rows].
  - apply eff_returns_eret. now split.
  - inversion Hrows as [| ? ? Hi Hrest]; subst.
    rewrite Nat2Z.id.
    eapply eff_returns_bind.
    { apply noise_columns_shape; [exact Hshape | exact Hi | apply range_below]. }
    intros m [Hlen Hm]. eapply eff_returns_weaken.
    + apply IH; [exact Hm | now rewrite Hlen].
    + intros m' [Hlen' Hm']. split; [lia | exact Hm'].
Qed.

Lemma noise_rounds_shape (width : nat) (rounds : list nat)
  (matrix : list (list cell)) :
  rows_of_width enc width matrix -> List.length matrix = 5%nat ->
  eff_returns (noise_rounds enc rounds 5 (Z.of_nat width) matrix)
    (fun m => List.length m = 5%nat /\ rows_of_width enc width m).
Proof.
  revert matrix. induction rounds as [| r rounds IH];
    intros matrix Hshape Hlen; cbn [noise_rounds].
  - apply eff_returns_eret. now split.
  - eapply eff_returns_bind.
    { apply noise_rows_shape; [exact Hshape |].
      rewrite Hlen. apply (range_below 5). }
    intros m [Hlen' Hm].
    eapply eff_returns_bind.
    { eapply eff_returns_completes, completes_print_matrix;
        [reflexivity | exact Hm]. }
    intros _ _.
    eapply eff_returns_bind;
      [apply eff_returns_completes, completes_emit |]. intros _ _.
    eapply eff_returns_bind;
      [apply eff_returns_completes, completes_cursor_up |]. intros _ _.
    apply IH; [exact Hm | lia].
Qed.

(** One assignment of line 217, on a matrix whose middle row still has a
    cell [x] at the column of the character [i]. *)
Lemma reveal_assignment (password : str) (start_col width i : nat) (c : char)
  (matrix : list (list cell)) (left rest : list cell) (x : cell) :
  encodable enc password = true ->
  nth_error password i = Some c ->
  List.length matrix = 5%nat -> rows_of_width enc width matrix ->
  nth_error matrix 2
  = Some (left ++ map glyph (firstn i password) ++ x :: rest) ->
  List.length left = start_col ->
  returns (set_cell matrix 2 (Z.of_nat start_col + Z.of_nat i) (glyph c))
    (fun m =>
       List.length m = 5%nat /\ rows_of_width enc width m /\
       nth_error m 2
       = Some (left ++ map glyph (firstn i password) ++ glyph c :: rest)).
Proof.
  intros Henc Hc Hlen Hshape Hrow Hleft.
  assert (Hi : (i < List.length password)%nat)
    by (apply nth_error_Some; congruence).
  assert (Hmid : List.length (map glyph (firstn i password)) = i)
    by (rewrite length_map, length_firstn; lia).
  destruct (rows_of_width_row _ _ _ _ Hshape Hrow) as [Hw Hcells].
  eapply returns_weaken.
  - eapply returns_set_cell; [unfold len; lia | exact Hrow |].
    unfold len. rewrite !length_app, Hmid, Hleft. simpl. lia.
  - intros m ->.
    replace (Z.to_nat (Z.of_nat start_col + Z.of_nat i))
      with (List.length left
            + List.length (map glyph (firstn i password)))%nat by lia.
    change (Z.to_nat 2) with 2%nat.
    split; [now rewrite length_update |]. split.
    + apply Forall_update; [exact Hshape |]. split.
      * rewrite length_update. exact Hw.
      * apply Forall_update; [exact Hcells |].
        eapply glyph_encodable; eassumption.
    + rewrite update_middle. apply nth_error_update_same. lia.
Qed.

Lemma flash_reveals (password : str) (start_col width i : nat) (c : char)
  (js : list nat) (j : nat) (matrix : list (list cell))
  (left rest : list cell) (x : cell) :
  encodable enc password = true ->
  nth_error password i = Some c ->
  List.length matrix = 5%nat -> rows_of_width enc width matrix ->
  nth_error matrix 2
  = Some (left ++ map glyph (firstn i password) ++ x :: rest) ->
  List.length left = start_col ->
  eff_returns (flash enc password 5 2 (Z.of_nat start_col) i (j :: js) matrix)
    (revealed enc password start_col width (S i)).
Proof.
  intros Henc Hc. revert j matrix x.
  induction js as [| j' js IH]; intros j matrix x Hlen Hshape Hrow Hleft;
    cbn [flash].
  - eapply eff_returns_bind.
    { apply eff_returns_lift, returns_getitem, nth_error_Some. congruence. }
    intros c' Hc'. rewrite Hc in Hc'. injection Hc' as <-.
    eapply eff_returns_bind.
    { eapply eff_returns_lift, reveal_assignment; eassumption. }
    intros m (Hlen' & Hshape' & Hrow').
    eapply eff_returns_bind.
    { eapply eff_returns_completes, completes_print_matrix;
        [reflexivity | exact Hshape']. }
    intros _ _.
    eapply eff_returns_bind;
      [apply eff_returns_completes, completes_emit |]. intros _ _.
    eapply eff_returns_bind;
      [apply eff_returns_completes, completes_cursor_up |]. intros _ _.
    apply eff_returns_eret. split; [exact Hlen' |]. split; [exact Hshape' |].
    exists left, rest. split; [| exact Hleft].
    rewrite Hrow', (firstn_succ_nth _ _ _ Hc), map_app, <- app_assoc.
    reflexivity.
  - eapply eff_returns_bind.
    { apply eff_returns_lift, returns_getitem, nth_error_Some. congruence. }
    intros c' Hc'. rewrite Hc in Hc'. injection Hc' as <-.
    eapply eff_returns_bind.
    { eapply eff_returns_lift, reveal_assignment; eassumption. }
    intros m (Hlen' & Hshape' & Hrow').
    eapply eff_returns_bind.
    { eapply eff_returns_completes, completes_print_matrix;
        [reflexivity | exact Hshape']. }
    intros _ _.
    eapply eff_returns_bind;
      [apply eff_returns_completes, completes_emit |]. intros _ _.
    eapply eff_returns_bind;
      [apply eff_returns_completes, completes_cursor_up |]. intros _ _.
    eapply (IH j'); eassumption.
Qed.

Lemma reveal_all (password : str) (start_col width m k : nat)
  (matrix : list (list cell)) :
  encodable enc password = true ->
  (k + m <= List.length password)%nat ->
  (start_col + List.length password <= width)%nat ->
  revealed enc password start_col width k matrix ->
  eff_returns (reveal enc password 5 2 (Z.of_nat start_col) (seq k m) matrix)
    (revealed enc password start_col width (k + m)).
Proof.
  intros Henc. revert k matrix.
  induction m as [| m IH]; intros k matrix Hk Hw Hrev; cbn [seq reveal].
  - apply eff_returns_eret. now rewrite Nat.add_0_r.
  - destruct Hrev as (Hlen & Hshape & left & right & Hrow & Hleft).
    destruct (nth_error password k) as [c |] eqn:Hc;
      [| apply nth_error_None in Hc; lia].
    destruct (rows_of_width_row _ _ _ _ Hshape Hrow) as [Hrowlen _].
    rewrite !length_app, length_map, length_firstn in Hrowlen.
    destruct right as [| x rest]; [simpl in Hrowlen; lia |].
    eapply eff_returns_bind.
    { change (range 3) with [0; 1; 2]%nat.
      eapply flash_reveals; eassumption. }
    intros m1 Hrev1. rewrite Nat.add_succ_r.
    apply (IH (S k) m1); [lia | exact Hw | exact Hrev1].
Qed.

Lemma matrix_effect_outcome (g : Random) (password : str) :
  encodable enc password = true ->
  exists log matrix g' left right,
    matrix_effect enc password g
    = (log
       ++ map (fun line => Print (join line) newline) matrix
       ++ [Print [Text newline; Fore MAGENTA; Style BRIGHT;
                  Text (py "Password: " ++ password)] newline;
           Print [] newline],
       Ok (tt, g')) /\
    len matrix = 5 /\
    Forall (fun row => len row = Z.max (len password + 10) 30) matrix /\
    nth_error matrix 2 = Some (left ++ map glyph password ++ right) /\
    len left = (Z.max (len password + 10) 30 - len password) / 2 /\
    5 <= len left /\ 5 <= len right.
Proof.
  intros Henc.
  set (n := List.length password).
  assert (Hdim : exists W s : nat,
    Z.max (len password + 10) 30 = Z.of_nat W /\
    (Z.max (len password + 10) 30 - len password) / 2 = Z.of_nat s /\
    (5 <= s /\ s + n + 5 <= W)%nat).
  { exists (Z.to_nat (Z.max (len password + 10) 30)),
      (Z.to_nat ((Z.max (len password + 10) 30 - len password) / 2)).
    subst n. unfold len. generalize (List.length password). intros a.
    pose proof (Z.mul_div_le (Z.max (Z.of_nat a + 10) 30 - Z.of_nat a) 2
                  ltac:(lia)) as Hlow.
    pose proof (Z.mul_succ_div_gt (Z.max (Z.of_nat a + 10) 30 - Z.of_nat a) 2
                  ltac:(lia)) as Hhigh.
    remember ((Z.max (Z.of_nat a + 10) 30 - Z.of_nat a) / 2) as q.
    split; [lia |]. split; lia. }
  destruct Hdim as (W & s & HW & Hs & Hbounds).
  set (init := map (fun _ : nat =>
                map (fun _ : nat => [Text (py "  ")]) (range W)) (range 5)).
  assert (Hinit : rows_of_width enc W init /\ List.length init = 5%nat).
  { split; [| reflexivity]. unfold init, rows_of_width.
    apply Forall_forall. intros row Hrow. apply in_map_iff in Hrow.
    destruct Hrow as (? & <- & _). unfold range. split.
    - now rewrite length_map, length_seq.
    - apply Forall_forall. intros c Hcell. apply in_map_iff in Hcell.
      destruct Hcell as (? & <- & _). reflexivity. }
  destruct Hinit as [Hshape0 Hlen0].
  destruct (noise_rounds_shape W (range 3) init Hshape0 Hlen0 g)
    as (log1 & m1 & g1 & E1 & Hlen1 & Hshape1).
  assert (Hrev0 : revealed enc password s W 0 m1).
  { split; [exact Hlen1 |]. split; [exact Hshape1 |].
    destruct (nth_error m1 2) as [row |] eqn:Hrow;
      [| apply nth_error_None in Hrow; lia].
    exists (firstn s row), (skipn s row). cbn [firstn map app].
    rewrite firstn_skipn. split; [reflexivity |].
    rewrite length_firstn.
    destruct (rows_of_width_row _ _ _ _ Hshape1 Hrow) as [Hrowlen _].
    lia. }
  assert (Hfit : (s + List.length password <= W)%nat) by (fold n; lia).
  destruct (reveal_all password s W n 0 m1 Henc (le_n _) Hfit Hrev0 g1)
    as (log2 & m2 & g2 & E2 & Hlen2 & Hshape2 & left & right & Hrow & Hleft).
  cbn [Nat.add] in Hrow. unfold n in Hrow. rewrite firstn_all in Hrow.
  exists ((Print [Fore GREEN; Style BRIGHT;
                  Text (py "Generating secure password..." ++ newline)]
                 newline :: log1) ++ log2), m2, g2, left, right.
  split.
  - unfold matrix_effect. cbv zeta. rewrite Hs, HW.
    change (Z.to_nat 5) with 5%nat. change (5 / 2) with 2.
    rewrite Nat2Z.id. fold init. fold n.
    erewrite ebind_ok; [| apply print_ok; reflexivity |].
    2:{ erewrite ebind_ok; [| exact E1 |].
        2:{ erewrite ebind_ok; [| unfold range at 1; exact E2 |].
            2:{ erewrite ebind_ok;
                  [| eapply print_matrix_log; [reflexivity | exact Hshape2] |].
                2:{ erewrite ebind_ok; [| apply print_ok | ].
                    3:{ apply print_ok. reflexivity. }
                    2:{ cbn [text_encodable forallb piece_encodable].
                        rewrite encodable_app, Henc. reflexivity. }
                    reflexivity. }
                reflexivity. }
            reflexivity. }
        reflexivity. }
    cbn [app]. rewrite <- !app_assoc. reflexivity.
  - split; [unfold len; lia |].
    split.
    { eapply Forall_impl; [| exact Hshape2].
      intros row [Hrow' _]. rewrite HW. unfold len. lia. }
    split; [exact Hrow |].
    destruct (rows_of_width_row _ _ _ _ Hshape2 Hrow) as [Hrowlen _].
    rewrite !length_app, length_map in Hrowlen. fold n in Hrowlen.
    rewrite Hs. unfold len. lia.
Qed.

End MatrixFacts.

(** X13: when [sys.stdout] can encode the password, [matrix_effect] never
    raises, whatever the random source.  The last picture it prints has 5
    rows of max(len(password) + 10, 30) cells; its middle row shows the
    characters of the password, highlighted and in order, from the column
    (width - len(password)) // 2 on, with at least 5 cells on each side.
    The picture is followed by the password line and an empty line. *)
Theorem matrix_effect_final_picture :
  forall (enc : char -> bool) (g : Random) (password : str),
  encodable enc password = true ->
  exists log matrix g' left right,
    matrix_effect enc password g
    = (log
       ++ map (fun line => Print (join line) newline) matrix
       ++ [Print [Text newline; Fore MAGENTA; Style BRIGHT;
                  Text (py "Password: " ++ password)] newline;
           Print [] newline],
       Ok (tt, g')) /\
    len matrix = 5 /\
    Forall (fun row => len row = Z.max (len password + 10) 30) matrix /\
    nth_error matrix 2 = Some (left ++ map glyph password ++ right) /\
    len left = (Z.max (len password + 10) 30 - len password) / 2 /\
    5 <= len left /\ 5 <= len right.
Proof. intros enc g password. apply matrix_effect_outcome. Qed.

Lemma matrix_effect_final_picture_witness :
  exists log matrix g' left right,
    matrix_effect utf_8 (py "ab") sample_random
    = (log
       ++ map (fun line => Print (join line) newline) matrix
       ++ [Print [Text newline; Fore MAGENTA; Style BRIGHT;
                  Text (py "Password: " ++ py "ab")] newline;
           Print [] newline],
       Ok (tt, g')) /\
    len matrix = 5 /\
    Forall (fun row => len row = Z.max (len (py "ab") + 10) 30) matrix /\
    nth_error matrix 2 = Some (left ++ map glyph (py "ab") ++ right) /\
    len left = (Z.max (len (py "ab") + 10) 30 - len (py "ab")) / 2 /\
    5 <= len left /\ 5 <= len right.
Proof.
  apply (matrix_effect_final_picture utf_8 sample_random (py "ab")).
  reflexivity.
Defined.

(** ** The generators, the evaluator and the command line *)









Lemma generate_loop_ext (indices : list nat) (m1 m2 : M str)
  (acc : list str) (g : Random) :
  (forall g, m1 g = m2 g) ->
  generate_loop indices m1 acc g = generate_loop indices m2 acc g.
Proof.
  intros Hext. revert acc g.
  induction indices as [| i rest IH]; intros acc g; cbn [generate_loop].
  - reflexivity.
  - unfold bind. rewrite Hext.
    destruct (m2 g) as [[pw g1] | e]; [apply IH | reflexivity].
Qed.

Lemma generate_password_floor (length : Z) (u l n s : bool) (g : Random) :
  generate_password (if length <? 12 then 12 else length) u l n s g
  = generate_password length u l n s g.
Proof.
  unfold generate_password.
  destruct (Z.ltb_spec length 12); [reflexivity |].
  destruct (Z.ltb_spec length 12); [lia | reflexivity].
Qed.

(** X16: the checks of the command line (lines 445-454) only print
    warnings: the passwords it generates without a template are those that
    [generate_password] returns, call after call, for the arguments as
    given, since [generate_password] floors the length and falls back to
    lowercase by itself.  When all four classes are excluded this holds
    for the lengths up to 2^63 - 1 and above 2^63 + 3: in between, the
    command line reserves four lowercase letters and [generate_password]
    called with all four flags false reserves none, so that only the
    latter asks [random.choices] for more than 2^63 - 1 characters. *)
Theorem command_line_checks_only_warn :
  forall (enc : char -> bool) (args : Namespace) (g : Random),
    (no_uppercase args && no_lowercase args
     && no_numbers args && no_special args = true ->
     arg_length args <= maxsize \/ maxsize + 4 < arg_length args) ->
    snd (generate_without_template enc args g)
    = generate_loop (range (Z.to_nat (arg_number args)))
        (generate_password (arg_length args)
           (negb (no_uppercase args)) (negb (no_lowercase args))
           (negb (no_numbers args)) (negb (no_special args)))
        [] g.
Proof.
  intros enc args g Hbound. unfold generate_without_template.
  assert (Hsnd : forall (A : Type) (m : Eff A) (a : A) (k : A -> Eff (list str)),
    (exists log, m g = (log, Ok (a, g))) ->
    snd (ebind m k g) = snd (k a g)).
  { intros A m a k (log & E). unfold ebind. rewrite E.
    destruct (k a g) as [log' r]. reflexivity. }
  assert (Hwarn : forall (A : Type) (t1 t2 : text) (a : A),
    text_encodable enc t1 = true -> text_encodable enc t2 = true ->
    exists log, (print enc t1 ;;; print enc t2 ;;; eret a) g
                = (log, Ok (a, g))).
  { intros A t1 t2 a H1 H2. eexists.
    erewrite ebind_ok; [reflexivity | now apply print_ok |].
    erewrite ebind_ok; [reflexivity | now apply print_ok | reflexivity]. }
  rewrite (Hsnd _ _ (if arg_length args <? 12 then 12 else arg_length args)).
  2:{ destruct (arg_length args <? 12);
        [apply Hwarn; reflexivity | now exists []]. }
  rewrite (Hsnd _ _
    (if no_uppercase args && no_lowercase args
        && no_numbers args && no_special args
     then false else no_lowercase args)).
  2:{ destruct (no_uppercase args && no_lowercase args
                && no_numbers args && no_special args);
        [apply Hwarn; reflexivity | now exists []]. }
  unfold lift. cbn [snd]. apply generate_loop_ext. intros g0.
  rewrite generate_password_floor.
  destruct (no_uppercase args), (no_lowercase args),
    (no_numbers args), (no_special args); cbn [andb negb] in *;
    try reflexivity.
  symmetry. apply generate_password_fallback_aux, Hbound. reflexivity.
Qed.

Lemma command_line_checks_only_warn_witness :
  snd (generate_without_template utf_8
         (mkNamespace 8 2 true true true true None) sample_random)
  = generate_loop (range 2)
      (generate_password 8 false false false false) [] sample_random.
Proof.
  apply (command_line_checks_only_warn utf_8
           (mkNamespace 8 2 true true true true None) sample_random).
  intros _. left. vm_compute. discriminate.
Defined.
